(** * CustomESRequestSerializer: the request serializer of volto-searchkit-block

    A shallow embedding of [CustomESRequestSerializer] (the first class of
    that name in [src/components/Searchkit/SearchBarSection.jsx]): the filter
    flattener [getFilters] and the request builder [serialize], together with
    the parts of the JavaScript run time and of lodash they rely on.

    Conventions of the embedding.
    - A JavaScript string is a [string]; every [ascii] stands for the UTF-16
      code unit of the same number, so the model covers the strings over
      U+0000..U+00FF.
    - A JavaScript number holding an integer is a [Z]; the serializer only
      compares, subtracts one and multiplies, and the last two round as
      doubles do ([Num]).
    - An ordinary object is the list of its own properties in the order
      [Object.keys] reports them, and inherits from [Object.prototype].
    - A thrown [TypeError] is the [Throw] case of [completion].
    - [listFilterFields] and [nestedFilterFields] are imported from
      [./constants.js], a file outside the ones embedded here: they are
      parameters of the development. *)

From Stdlib Require Import String Ascii List ZArith NArith Bool Lia.
Import ListNotations.
Set Warnings "-register-all".
Open Scope string_scope.
Open Scope list_scope.

(** ** Strings *)

Module Str.

(** [s.startsWith(p)] *)
Definition startsWith (p s : string) : bool := String.prefix p s.

(** [s.endsWith(p)]: some suffix of [s] is [p]. *)
Fixpoint endsWith (p s : string) : bool :=
  String.eqb p s ||
  match s with
  | EmptyString => false
  | String _ s' => endsWith p s'
  end.

(** [s.includes(c)] for a pattern [c] of one code unit. *)
Fixpoint includes (c : ascii) (s : string) : bool :=
  match s with
  | EmptyString => false
  | String a s' => Ascii.eqb a c || includes c s'
  end.

(** [s.split(sep)] for a separator of one code unit; never empty. *)
Fixpoint split (sep : ascii) (s : string) : list string :=
  match s with
  | EmptyString => [EmptyString]
  | String a s' =>
      if Ascii.eqb a sep then EmptyString :: split sep s'
      else match split sep s' with
           | [] => [String a EmptyString]
           | w :: ws => String a w :: ws
           end
  end.

(** [s.replace(c, '')] for a string pattern [c] of one code unit: only the
    first occurrence goes. *)
Fixpoint remove_first (c : ascii) (s : string) : string :=
  match s with
  | EmptyString => EmptyString
  | String a s' => if Ascii.eqb a c then s' else String a (remove_first c s')
  end.

(** [s.slice(1)] *)
Definition slice1 (s : string) : string :=
  match s with
  | EmptyString => EmptyString
  | String _ s' => s'
  end.

(** The remainder of [s] behind its first [n] code units. *)
Fixpoint drop (n : nat) (s : string) : string :=
  match n, s with
  | O, _ => s
  | S _, EmptyString => EmptyString
  | S n', String _ s' => drop n' s'
  end.

(** The replacement text of [String.prototype.replace] for a string pattern
    (no captures) matched at the start of the subject: [$$] is a dollar,
    [$&] the match, [$`] the (empty) text before it, [$'] the text behind
    it; any other dollar stands for itself. *)
Fixpoint substitution (matched behind template : string) : string :=
  match template with
  | EmptyString => EmptyString
  | String a t =>
      if Ascii.eqb a "$" then
        match t with
        | String c t' =>
            if Ascii.eqb c "$" then String "$" (substitution matched behind t')
            else if Ascii.eqb c "&" then (matched ++ substitution matched behind t')%string
            else if Ascii.eqb c "`" then substitution matched behind t'
            else if Ascii.eqb c "'" then (behind ++ substitution matched behind t')%string
            else String a (substitution matched behind t)
        | EmptyString => String a EmptyString
        end
      else String a (substitution matched behind t)
  end.

(** [s.replace(p, template)] where [p] is a prefix of [s], so that the first
    occurrence of [p] is the one at position 0. *)
Definition replace_prefix (s p template : string) : string :=
  let behind := drop (String.length p) s in
  (substitution p behind template ++ behind)%string.

(** [l.join(sep)] *)
Definition join (sep : string) (l : list string) : string := String.concat sep l.

Fixpoint dropStart (strip : ascii -> bool) (s : string) : string :=
  match s with
  | EmptyString => EmptyString
  | String a s' => if strip a then dropStart strip s' else s
  end.

Fixpoint dropEnd (strip : ascii -> bool) (s : string) : string :=
  match s with
  | EmptyString => EmptyString
  | String a s' =>
      match dropEnd strip s' with
      | EmptyString => if strip a then EmptyString else String a EmptyString
      | t => String a t
      end
  end.

(** White space and line terminators of ECMAScript below U+0100. *)
Definition is_white_space (a : ascii) : bool :=
  match nat_of_ascii a with
  | 9 | 10 | 11 | 12 | 13 | 32 | 160 => true
  | _ => false
  end.

(** [s.trim()] *)
Definition trim (s : string) : string :=
  dropEnd is_white_space (dropStart is_white_space s).

(** lodash [trim(s, chars)]: the symbols of [chars] go from both ends. *)
Definition lodash_trim (s chars : string) : string :=
  dropEnd (fun a => includes a chars) (dropStart (fun a => includes a chars) s).

(** lodash [isEmpty] on a string: it has no code unit. *)
Definition isEmpty (s : string) : bool :=
  match s with
  | EmptyString => true
  | String _ _ => false
  end.

End Str.

(** ** Ordinary objects *)

Module Obj.

(** Own enumerable string-keyed properties, in [Object.keys] order: array
    indices first, ascending, then the other keys in creation order. *)
Definition t (V : Type) : Type := list (string * V).

Definition digit (a : ascii) : option N :=
  let n := N_of_ascii a in
  if ((48 <=? n) && (n <=? 57))%N then Some (n - 48)%N else None.

Fixpoint digits (acc : N) (s : string) : option N :=
  match s with
  | EmptyString => Some acc
  | String a s' =>
      match digit a with
      | Some d => digits (10 * acc + d)%N s'
      | None => None
      end
  end.

(** A key is an array index when it is the canonical decimal form of an
    integer below 2^32 - 1. *)
Definition array_index (k : string) : option N :=
  match k with
  | EmptyString => None
  | String a rest =>
      if Ascii.eqb a "0" && negb (Str.isEmpty rest) then None
      else match digits 0 k with
           | Some n => if (n <? 4294967295)%N then Some n else None
           | None => None
           end
  end.

Section Operations.
Context {V : Type}.

(** The own property [k], if any. *)
Fixpoint own (k : string) (o : t V) : option V :=
  match o with
  | [] => None
  | (k', v) :: o' => if String.eqb k' k then Some v else own k o'
  end.

Definition hasOwn (k : string) (o : t V) : bool :=
  match own k o with
  | Some _ => true
  | None => false
  end.

Fixpoint overwrite (k : string) (v : V) (o : t V) : t V :=
  match o with
  | [] => []
  | (k', v') :: o' =>
      if String.eqb k' k then (k', v) :: o' else (k', v') :: overwrite k v o'
  end.

Fixpoint insert_index (i : N) (k : string) (v : V) (o : t V) : t V :=
  match o with
  | [] => [(k, v)]
  | (k', v') :: o' =>
      match array_index k' with
      | Some j => if (j <? i)%N then (k', v') :: insert_index i k v o'
                  else (k, v) :: o
      | None => (k, v) :: o
      end
  end.

(** [o[k] = v] on own data properties: an existing property keeps its place,
    a new one is created at the place [Object.keys] gives it. *)
Definition set (k : string) (v : V) (o : t V) : t V :=
  if hasOwn k o then overwrite k v o
  else match array_index k with
       | Some i => insert_index i k v o
       | None => o ++ [(k, v)]
       end.

(** [Object.keys(o)] *)
Definition keys (o : t V) : list string := map fst o.

End Operations.

(** The properties every ordinary object inherits from [Object.prototype]. *)
Definition prototype_keys : list string :=
  [ "constructor"; "hasOwnProperty"; "isPrototypeOf"; "propertyIsEnumerable";
    "toLocaleString"; "toString"; "valueOf"; "__proto__";
    "__defineGetter__"; "__defineSetter__";
    "__lookupGetter__"; "__lookupSetter__" ].

Definition inherited (k : string) : bool :=
  existsb (String.eqb k) prototype_keys.

(** [k in o]: own or inherited. *)
Definition has {V : Type} (k : string) (o : t V) : bool :=
  hasOwn k o || inherited k.

End Obj.

(** [a.includes(x)] on an array of strings, [x] possibly [undefined]. *)
Definition includes (a : list string) (x : option string) : bool :=
  match x with
  | Some s => existsb (String.eqb s) a
  | None => false
  end.

(** ** Completions *)

Inductive completion (A : Type) : Type :=
| Normal (a : A)
| Throw.
Arguments Normal {A} a.
Arguments Throw {A}.

Definition bind {A B : Type} (c : completion A) (k : A -> completion B)
  : completion B :=
  match c with
  | Normal a => k a
  | Throw => Throw
  end.

Notation "x <- c ;; k" := (bind c (fun x => k))
  (at level 61, c at next level, right associativity).

(** ** Values handed to the search engine *)

Inductive jsval : Type :=
| JUndefined
| JNum (z : Z)
| JInfinity (negative : bool)
| JStr (s : string)
| JArr (l : list jsval)
| JObj (o : list (string * jsval)).

Definition strings (l : list string) : jsval := JArr (map JStr l).

(** [v[k]] on a value built by the serializer: own properties only. *)
Definition field (k : string) (v : jsval) : option jsval :=
  match v with
  | JObj o => Obj.own k o
  | _ => None
  end.

(** [v[k1][k2]...] *)
Fixpoint path (ks : list string) (v : jsval) : option jsval :=
  match ks with
  | [] => Some v
  | k :: ks' =>
      match field k v with
      | Some v' => path ks' v'
      | None => None
      end
  end.

(** ** Numbers *)

Module Num.

(** The integer [n] as a double: the nearest integer of 53 significant bits,
    a tie going to the one with an even last bit. *)
Definition nearest_double (n : Z) : Z :=
  let m := Z.abs n in
  if (m <? 2 ^ 53)%Z then n
  else
    let e := (Z.log2 m - 52)%Z in
    let q := Z.shiftr m e in
    let r := (m - Z.shiftl q e)%Z in
    let half := Z.shiftl 1 (e - 1) in
    let q := if (half <? r)%Z || ((r =? half)%Z && Z.odd q) then (q + 1)%Z else q in
    (Z.sgn n * Z.shiftl q e)%Z.

(** [a - b] on integers that are doubles; used for [page - 1] with a
    positive [page], where the result is finite. *)
Definition minus (a b : Z) : Z := nearest_double (a - b).

(** [a * b] on integers that are doubles: the rounded product, or an
    infinity from 2^1024 on.  The serializer multiplies no negative number,
    so that no negative zero comes up. *)
Definition times (a b : Z) : jsval :=
  let r := nearest_double (a * b) in
  if (2 ^ 1024 <=? Z.abs r)%Z then JInfinity (r <? 0)%Z else JNum r.

End Num.

(** ** The filter-chain flattener *)

(** A filter of the search state: [[aggName, fieldValue]] or
    [[aggName, fieldValue, child]]. *)
Inductive FilterChain : Type :=
| Chain (aggName : string) (fieldValue : string) (child : option FilterChain).

(** [getChildFilter] of [getFilters], the accumulator [aggValueObj] passed
    explicitly.  A name that is [in] the object without being an own property
    is inherited; what it holds has no [push], and the call throws. *)
Fixpoint getChildFilter (filter : FilterChain) (aggValueObj : Obj.t (list string))
  : completion (Obj.t (list string)) :=
  match filter with
  | Chain aggName fieldValue child =>
      o <- (if Obj.has aggName aggValueObj then
              match Obj.own aggName aggValueObj with
              | Some values =>
                  Normal (Obj.set aggName (values ++ [fieldValue]) aggValueObj)
              | None => Throw
              end
            else Normal (Obj.set aggName [fieldValue] aggValueObj)) ;;
      match child with
      | Some c => getChildFilter c o
      | None => Normal o
      end
  end.

(** [filters.forEach(getChildFilter)] from a given accumulator. *)
Fixpoint forEach_getChildFilter (filters : list FilterChain)
  (aggValueObj : Obj.t (list string)) : completion (Obj.t (list string)) :=
  match filters with
  | [] => Normal aggValueObj
  | f :: fs => o <- getChildFilter f aggValueObj ;; forEach_getChildFilter fs o
  end.

Definition getFilters (filters : list FilterChain)
  : completion (Obj.t (list string)) :=
  forEach_getChildFilter filters [].

(** ** The tokenizer of [serialize] *)

Definition dquote : ascii := "034"%char.
Definition quot : string := String dquote EmptyString.

(** The five lists the words of the query string are sorted into. *)
Record Buckets : Type := mkBuckets {
  qs_tailored_should_notexact : list string;
  qs_tailored_should_exact : list string;
  qs_tailored_must_notexact : list string;
  qs_tailored_must_exact : list string;
  qs_tailored_mustNot_exact : list string
}.

Definition no_words : Buckets := mkBuckets [] [] [] [] [].

Definition force_fuzzy : bool := true.

Definition _remove_orphan_leading_or_trailing_quotmarks (word : string) : string :=
  let word_without_plus_or_minus := Str.lodash_trim word "+" in
  let word_without_plus_or_minus := Str.lodash_trim word_without_plus_or_minus "-" in
  if negb (Str.startsWith quot word_without_plus_or_minus &&
           Str.endsWith quot word_without_plus_or_minus) &&
     negb (negb (Str.startsWith quot word_without_plus_or_minus) &&
           negb (Str.endsWith quot word_without_plus_or_minus))
  then Str.remove_first dquote word
  else word.

(** Both calls of [replace] build a new string that is dropped; the word
    comes back as it went in. *)
Definition _removeQuotationMarks (word : string) : string :=
  let _ := Str.remove_first dquote word in
  let _ := Str.remove_first "'" word in
  word.

Definition _maybeFuzzy (word : string) : string :=
  if force_fuzzy then (word ++ " " ++ word ++ "~")%string else word.

(** One word, the five lists passed explicitly. *)
Definition _make_fuzzy_and_enrich_with_word_parts (word : string) (b : Buckets)
  : Buckets :=
  if Str.startsWith "-" word then
    mkBuckets b.(qs_tailored_should_notexact) b.(qs_tailored_should_exact)
      b.(qs_tailored_must_notexact) b.(qs_tailored_must_exact)
      (b.(qs_tailored_mustNot_exact) ++ [_removeQuotationMarks (Str.slice1 word)])
  else if Str.startsWith "+" word then
    if Str.includes dquote word || Str.includes "*" word || Str.includes "?" word
    then
      mkBuckets b.(qs_tailored_should_notexact) b.(qs_tailored_should_exact)
        b.(qs_tailored_must_notexact)
        (b.(qs_tailored_must_exact) ++ [Str.slice1 word])
        b.(qs_tailored_mustNot_exact)
    else
      mkBuckets b.(qs_tailored_should_notexact) b.(qs_tailored_should_exact)
        (b.(qs_tailored_must_notexact) ++ [Str.slice1 word])
        b.(qs_tailored_must_exact) b.(qs_tailored_mustNot_exact)
  else if Str.includes "*" word || Str.includes "?" word then
    mkBuckets b.(qs_tailored_should_notexact)
      (b.(qs_tailored_should_exact) ++ [_removeQuotationMarks word])
      b.(qs_tailored_must_notexact) b.(qs_tailored_must_exact)
      b.(qs_tailored_mustNot_exact)
  else if Str.includes dquote word then
    mkBuckets b.(qs_tailored_should_notexact)
      (b.(qs_tailored_should_exact) ++ [word])
      b.(qs_tailored_must_notexact) b.(qs_tailored_must_exact)
      b.(qs_tailored_mustNot_exact)
  else
    let wordpartlist := Str.split "-" word in
    let word_new :=
      if (1 <? List.length wordpartlist)%nat then
        let wordpartlist := wordpartlist ++ [word] in
        let resultlist :=
          map (fun el => if force_fuzzy then (el ++ " " ++ el ++ "~")%string else el)
              wordpartlist in
        Str.join " " resultlist
      else
        if force_fuzzy then (word ++ " " ++ word ++ "~")%string else word in
    mkBuckets (b.(qs_tailored_should_notexact) ++ [word_new])
      b.(qs_tailored_should_exact) b.(qs_tailored_must_notexact)
      b.(qs_tailored_must_exact) b.(qs_tailored_mustNot_exact).

(** The words of a query string: split at single spaces, the empty pieces
    and the lone quotation marks left out. *)
Definition words_of (queryString : string) : list string :=
  List.filter (fun word => negb (String.eqb word "") && negb (String.eqb word quot))
    (Str.split " " (Str.trim queryString)).

(** The lists after [words.forEach(...)]. *)
Definition tokenize (queryString : string) : Buckets :=
  fold_left
    (fun b word =>
       let word := _remove_orphan_leading_or_trailing_quotmarks word in
       _make_fuzzy_and_enrich_with_word_parts word b)
    (words_of queryString) no_words.

(** ** The serializer *)

(** What the constructor keeps of its [config]. *)
Record Serializer : Type := mkSerializer {
  reviewstatemapping : Obj.t jsval;
  simpleFields : list string
}.

(** The [query] state handed to [serialize]. *)
Record SearchState : Type := mkSearchState {
  queryString : string;
  sortBy : string;
  sortOrder : string;
  page : Z;
  size : Z;
  filters : list FilterChain
}.

(** [o[k]] for a key that is not inherited. *)
Definition get (k : string) (o : Obj.t jsval) : jsval :=
  match Obj.own k o with
  | Some v => v
  | None => JUndefined
  end.

(** A value used as a property key: [undefined] names the property
    ["undefined"]. *)
Definition property_key (k : option string) : string :=
  match k with
  | Some s => s
  | None => "undefined"
  end.

(** [a.length] as a condition. *)
Definition has_length {A : Type} (a : list A) : bool :=
  match a with
  | [] => false
  | _ :: _ => true
  end.

(** lodash [isEmpty] on the values that occur. *)
Definition isEmpty (v : jsval) : bool :=
  match v with
  | JUndefined => true
  | JNum _ => true
  | JInfinity _ => true
  | JStr s => Str.isEmpty s
  | JArr l => negb (has_length l)
  | JObj o => negb (has_length o)
  end.

Definition query_string (query : string) (fields : list string) : jsval :=
  JObj [("query_string", JObj [("query", JStr query); ("fields", strings fields)])].

(** [cond && list.push(clause)] *)
Definition push_when (cond : bool) (clause : jsval) (arr : list jsval) : list jsval :=
  if cond then arr ++ [clause] else arr.

Definition exact_field (fld : string) : string :=
  let fieldname := hd "" (Str.split "^" fld) in
  Str.replace_prefix fld fieldname (fieldname ++ ".exact")%string.

Definition highlight_field (name : string) : jsval :=
  JObj [(name, JObj [("matched_fields", strings [name; (name ++ ".exact")%string]);
                     ("type", JStr "fvh")])].

Definition highlight : jsval :=
  JObj [("fields", JArr [ highlight_field "title";
                          highlight_field "description";
                          highlight_field "freemanualtags_searchable";
                          highlight_field "blocks_plaintext";
                          highlight_field "subjects";
                          highlight_field "manualfilecontent" ])].

Definition aggFieldsMapping : Obj.t string :=
  [ ("kompasscomponent_agg.inner.kompasscomponent_token", "kompasscomponent");
    ("targetaudience_agg.inner.targetaudience_token", "targetaudience");
    ("organisationunit_agg.inner.organisationunit_token", "organisationunit");
    ("informationtype_agg.inner.informationtype_token", "informationtype") ].

(** [aggValueObj[aggName]] as a value. *)
Definition values_of (aggName : string) (aggValueObj : Obj.t (list string)) : jsval :=
  match Obj.own aggName aggValueObj with
  | Some values => strings values
  | None => JUndefined
  end.

Definition nested_clause (fieldName : string) (values : jsval) : jsval :=
  JObj [("nested",
         JObj [("path", JStr fieldName);
               ("query",
                JObj [("bool",
                       JObj [("must",
                              JArr [JObj [("terms",
                                           JObj [((fieldName ++ ".token")%string,
                                                  values)])]])])])])].

(** [el.nested.path] of an element of [filter]. *)
Definition nested_path (el : jsval) : string :=
  match path ["nested"; "path"] el with
  | Some (JStr p) => p
  | _ => "undefined"
  end.

Section Serialize.

(** The two lists of [./constants.js]. *)
Variables listFilterFields nestedFilterFields : list string.

Variable this : Serializer.

(** The [query] of a non-empty query string. *)
Definition bool_query (queryString : string) : jsval :=
  let b := tokenize queryString in
  let simpleFields_exact := map exact_field this.(simpleFields) in
  let simpleFields := this.(simpleFields) in
  let shouldList := [] in
  let mustList := [] in
  let must_notList := [] in
  let shouldList :=
    push_when (has_length b.(qs_tailored_should_notexact))
      (query_string (Str.join " " b.(qs_tailored_should_notexact)) simpleFields)
      shouldList in
  let shouldList :=
    push_when (has_length b.(qs_tailored_should_exact))
      (query_string (Str.join " " b.(qs_tailored_should_exact)) simpleFields_exact)
      shouldList in
  let mustList :=
    push_when (has_length b.(qs_tailored_must_notexact))
      (query_string (Str.join " " b.(qs_tailored_must_notexact)) simpleFields)
      mustList in
  let mustList :=
    push_when (has_length b.(qs_tailored_must_exact))
      (query_string (Str.join " " b.(qs_tailored_must_exact)) simpleFields_exact)
      mustList in
  let must_notList :=
    push_when (has_length b.(qs_tailored_mustNot_exact))
      (query_string (Str.join " " b.(qs_tailored_mustNot_exact)) simpleFields_exact)
      must_notList in
  JObj [("bool", JObj [("should", JArr shouldList);
                       ("must", JArr mustList);
                       ("must_not", JArr must_notList)])].

(** [sortObj] after [sortObj[sortBy] = ...]: assigning a string to
    [__proto__] leaves the object as it was. *)
Definition sortObj (sortBy sortOrder : string) : jsval :=
  let direction := if String.eqb sortOrder "desc" then "desc" else "asc" in
  if String.eqb sortBy "__proto__" then JObj []
  else JObj [(sortBy, JStr direction)].

(** The two clauses on the content types and the review states. *)
Definition global_terms : list jsval :=
  let allowed_content_types := strings ["Manual"] in
  let allowed_review_states := get "Manual" this.(reviewstatemapping) in
  [ JObj [("terms", JObj [("portal_type", allowed_content_types)])];
    JObj [("terms", JObj [("review_state", allowed_review_states)])] ].

(** The first [reduce] over [Object.keys(aggValueObj)].  The flattener
    never records an inherited name, so [aggFieldsMapping[aggName]] is an own
    property of the mapping or [undefined]. *)
Definition additionalterms (aggValueObj : Obj.t (list string)) : list jsval :=
  fold_left
    (fun accumulator aggName =>
       let fieldName := Obj.own aggName aggFieldsMapping in
       let obj := JObj [(property_key fieldName, values_of aggName aggValueObj)] in
       if includes listFilterFields fieldName
       then accumulator ++ [JObj [("terms", obj)]]
       else accumulator)
    (Obj.keys aggValueObj) [].

(** The second [reduce]: the clauses of the nested fields. *)
Definition nested_filter (aggValueObj : Obj.t (list string)) : list jsval :=
  fold_left
    (fun accumulator aggName =>
       let fieldName := Obj.own aggName aggFieldsMapping in
       if includes nestedFilterFields fieldName
       then accumulator ++
            [nested_clause (property_key fieldName) (values_of aggName aggValueObj)]
       else accumulator)
    (Obj.keys aggValueObj) [].

(** [aggregation_filter(agg)], [filter] being the list of nested clauses. *)
Definition aggregation_filter (filter : list jsval) (agg : list string) : jsval :=
  if isEmpty (JArr filter) then JObj [("match_all", JObj [])]
  else JObj [("bool",
              JObj [("filter",
                     JArr (List.filter
                             (fun el => negb (Str.startsWith (nested_path el)
                                                (property_key (nth_error agg 0))))
                             filter))])].

(** The entry of a nested field before its [filter] is attached. *)
Definition nested_aggregation (myaggs : list string) (fieldName : string)
  : list (string * jsval) :=
  [("aggs",
    JObj [("inner",
           JObj [("nested", JObj [("path", JStr fieldName)]);
                 ("aggs",
                  JObj [(property_key (nth_error myaggs 2),
                         JObj [("terms",
                                JObj [("field", JStr (fieldName ++ ".token")%string);
                                      ("order", JObj [("_key", JStr "asc")]);
                                      ("size", JNum 30)]);
                               ("aggs",
                                JObj [("somemoredatafromelasticsearch",
                                       JObj [("top_hits",
                                              JObj [("size", JNum 1);
                                                    ("_source",
                                                     JObj [("includes",
                                                            strings [fieldName])])])])])])])])])].

(** 1. aggregations of listFields *)
Definition list_aggregations (aggs : Obj.t jsval) : Obj.t jsval :=
  fold_left
    (fun aggs aggName =>
       let fieldName := Obj.own aggName aggFieldsMapping in
       if includes listFilterFields fieldName
       then Obj.set aggName
              (JObj [("terms", JObj [("field", JStr (property_key fieldName))])])
              aggs
       else aggs)
    (Obj.keys aggFieldsMapping) aggs.

(** 2. aggregations of nestedFilterFields *)
Definition nested_aggregations (filter : list jsval) (aggs : Obj.t jsval)
  : Obj.t jsval :=
  fold_left
    (fun aggs aggName =>
       let myaggs := Str.split "." aggName in
       let fieldName := Obj.own aggName aggFieldsMapping in
       if includes nestedFilterFields fieldName then
         let component := nested_aggregation myaggs (property_key fieldName) in
         let flt := aggregation_filter filter myaggs in
         let component :=
           if negb (isEmpty flt) then Obj.set "filter" flt component
           else component in
         Obj.set (property_key (nth_error myaggs 0)) (JObj component) aggs
       else aggs)
    (Obj.keys aggFieldsMapping) aggs.

(** The head of [serialize]: [query] and [highlight], [sort], [size] and
    [from], in the order they are assigned to [bodyParams]. *)
Definition query_sort_paging (stateQuery : SearchState) (bodyParams : Obj.t jsval)
  : Obj.t jsval :=
  let bodyParams :=
    if negb (Str.isEmpty stateQuery.(queryString)) then
      let bodyParams :=
        Obj.set "query" (bool_query stateQuery.(queryString)) bodyParams in
      Obj.set "highlight" highlight bodyParams
    else bodyParams in
  let bodyParams :=
    if negb (String.eqb stateQuery.(sortBy) "bestmatch") then
      Obj.set "sort"
        (JArr [sortObj stateQuery.(sortBy) stateQuery.(sortOrder)]) bodyParams
    else bodyParams in
  let bodyParams :=
    if (0 <? stateQuery.(size))%Z then
      Obj.set "size" (JNum stateQuery.(size)) bodyParams
    else bodyParams in
  if (0 <? stateQuery.(page))%Z then
    let s := if (0 <? stateQuery.(size))%Z then stateQuery.(size) else 0%Z in
    let from := Num.times (Num.minus stateQuery.(page) 1) s in
    Obj.set "from" from bodyParams
  else bodyParams.

(** [terms] and [filter] once the selected filters are taken in; [selected]
    is [aggValueObj] when [filters] has elements. *)
Definition terms_and_filter (selected : option (Obj.t (list string)))
  : list jsval * list jsval :=
  let terms := global_terms in
  let filter : list jsval := [] in
  match selected with
  | Some aggValueObj =>
      (terms ++ additionalterms aggValueObj, nested_filter aggValueObj)
  | None => (terms, filter)
  end.

Definition post_filter (terms filter : list jsval) : jsval :=
  let post_filter := [("must", JArr terms)] in
  let post_filter :=
    if negb (isEmpty (JArr filter)) then Obj.set "filter" (JArr filter) post_filter
    else post_filter in
  JObj [("bool", JObj post_filter)].

Definition aggregations (filter : list jsval) : jsval :=
  let aggs := [] in
  let aggs := list_aggregations aggs in
  let aggs := nested_aggregations filter aggs in
  JObj aggs.

(** [serialize] behind the flattening of the filters. *)
Definition assemble (stateQuery : SearchState)
  (selected : option (Obj.t (list string))) : jsval :=
  let bodyParams : Obj.t jsval := [] in
  let bodyParams := query_sort_paging stateQuery bodyParams in
  let terms := fst (terms_and_filter selected) in
  let filter := snd (terms_and_filter selected) in
  let bodyParams := Obj.set "post_filter" (post_filter terms filter) bodyParams in
  let bodyParams := Obj.set "aggs" (aggregations filter) bodyParams in
  JObj bodyParams.

(** [serialize(stateQuery)]: the request body, or the exception of
    [getFilters]. *)
Definition serialize (stateQuery : SearchState) : completion jsval :=
  selected <-
    (if has_length stateQuery.(filters) then
       aggValueObj <- getFilters stateQuery.(filters) ;; Normal (Some aggValueObj)
     else Normal None) ;;
  Normal (assemble stateQuery selected).

End Serialize.

(** ** Reference notions for the statements *)

(** The [(facet name, value)] pairs of a chain, outermost first. *)
Fixpoint chain_pairs (c : FilterChain) : list (string * string) :=
  match c with
  | Chain aggName fieldValue child =>
      (aggName, fieldValue) ::
      match child with
      | Some c' => chain_pairs c'
      | None => []
      end
  end.

(** The pairs of a sequence of chains, in the order they are visited. *)
Definition selections (filters : list FilterChain) : list (string * string) :=
  flat_map chain_pairs filters.

(** The values selected for one facet name, in order, duplicates kept. *)
Definition values_for (aggName : string) (ps : list (string * string)) : list string :=
  map snd (List.filter (fun p => String.eqb (fst p) aggName) ps).

(** [myaggs[0]] for a key of [aggFieldsMapping]. *)
Definition first_segment (aggName : string) : string :=
  property_key (nth_error (Str.split "." aggName) 0).

(** The wrapping filter of an aggregation entry that keeps the clauses [l]. *)
Definition wrapping_filter (l : list jsval) : jsval :=
  JObj [("bool", JObj [("filter", JArr l)])].

(** What a value list becomes when [l] is pushed onto it, one by one. *)
Definition pushed (before : option (list string)) (l : list string)
  : option (list string) :=
  match before with
  | Some values => Some (values ++ l)
  | None => match l with [] => None | _ :: _ => Some l end
  end.

(** The objects the flattener builds: no key twice, no inherited name. *)
Definition flat (o : Obj.t (list string)) : Prop :=
  NoDup (Obj.keys o) /\ forall k, In k (Obj.keys o) -> Obj.inherited k = false.

(** One pair recorded: the step of [getChildFilter] before it descends. *)
Definition record (aggName fieldValue : string) (o : Obj.t (list string))
  : completion (Obj.t (list string)) :=
  if Obj.has aggName o then
    match Obj.own aggName o with
    | Some values => Normal (Obj.set aggName (values ++ [fieldValue]) o)
    | None => Throw
    end
  else Normal (Obj.set aggName [fieldValue] o).

(** ** Sample configurations and search states *)

Definition sample_serializer : Serializer :=
  mkSerializer [("Manual", strings ["published"])] ["title^2"; "description"].

Definition all_nested : list string :=
  ["kompasscomponent"; "targetaudience"; "organisationunit"; "informationtype"].

Definition kompass : string := "kompasscomponent_agg.inner.kompasscomponent_token".
Definition audience : string := "targetaudience_agg.inner.targetaudience_token".

Definition state_of (q : string) (p s : Z) (fs : list FilterChain) : SearchState :=
  mkSearchState q "bestmatch" "asc" p s fs.

(** ** Further reference notions *)

(** A pair as a chain without a child. *)
Definition leaf_chain (p : string * string) : FilterChain :=
  Chain (fst p) (snd p) None.

(** How many fragments the five lists hold together. *)
Definition fragments (b : Buckets) : nat :=
  List.length b.(qs_tailored_should_notexact) +
  List.length b.(qs_tailored_should_exact) +
  List.length b.(qs_tailored_must_notexact) +
  List.length b.(qs_tailored_must_exact) +
  List.length b.(qs_tailored_mustNot_exact).

(** Code units the tokenizer gives no meaning to: no white space, sign,
    wildcard or quotation mark. *)
Definition plain_char (a : ascii) : bool :=
  negb (Str.is_white_space a) &&
  negb (Str.includes a ("+-*?" ++ quot)%string).

Fixpoint all_chars (ok : ascii -> bool) (s : string) : bool :=
  match s with
  | EmptyString => true
  | String a s' => ok a && all_chars ok s'
  end.

(** A non-empty word of plain code units. *)
Definition plain (w : string) : bool :=
  negb (Str.isEmpty w) && all_chars plain_char w.

(** [f] on the last element of a list. *)
Fixpoint map_last {A : Type} (f : A -> A) (l : list A) : list A :=
  match l with
  | [] => []
  | [x] => [f x]
  | x :: l' => x :: map_last f l'
  end.

(** The facet name of a chain. *)
Definition chain_name (c : FilterChain) : string :=
  match c with
  | Chain aggName _ _ => aggName
  end.

(** [p] occurs somewhere in [s]. *)
Fixpoint occurs (p s : string) : bool :=
  String.prefix p s ||
  match s with
  | EmptyString => false
  | String _ s' => occurs p s'
  end.

(** The clauses one list of fragments stands for in a [bool] query: none
    for the empty list, otherwise the one [query_string] clause on the
    fragments joined by spaces. *)
Definition clauses_of (fragments fields : list string) : list jsval :=
  match fragments with
  | [] => []
  | _ :: _ =>
      [JObj [("query_string",
              JObj [("query", JStr (String.concat " " fragments));
                    ("fields", JArr (map JStr fields))])]]
  end.

(** The query of a nested facet on its selected values:
    [{nested: {path, query: {bool: {must: [{terms: {path.token: values}}]}}}}]. *)
Definition nested_query (fieldPath : string) (values : list string) : jsval :=
  JObj [("nested",
         JObj [("path", JStr fieldPath);
               ("query",
                JObj [("bool",
                       JObj [("must",
                              JArr [JObj [("terms",
                                           JObj [((fieldPath ++ ".token")%string,
                                                  JArr (map JStr values))])]])])])])].

(** The search state with other filters. *)
Definition with_filters (st : SearchState) (fs : list FilterChain) : SearchState :=
  mkSearchState st.(queryString) st.(sortBy) st.(sortOrder) st.(page) st.(size) fs.

(** ** The serializer on [multi_match]

    The second class [CustomESRequestSerializer] of
    [src/components/Searchkit/SearchBarSection.jsx]: it searches with one
    [multi_match] query, takes every facet as a plain field and knows the
    extra facet [section].  Its [getFilters] is the one above. *)

Module MultiMatch.

(** [s.replace(p, '')] for a string pattern [p]: the leftmost occurrence
    goes. *)
Fixpoint remove_first_occurrence (p s : string) : string :=
  if String.prefix p s then Str.drop (String.length p) s
  else match s with
       | EmptyString => EmptyString
       | String a s' => String a (remove_first_occurrence p s')
       end.

Definition hex_digit (n : nat) : ascii :=
  List.nth n (list_ascii_of_string "0123456789abcdef") "0"%char.

(** One code unit inside a JSON string. *)
Definition quote_char (a : ascii) : string :=
  match nat_of_ascii a with
  | 8 => "\b"
  | 9 => "\t"
  | 10 => "\n"
  | 12 => "\f"
  | 13 => "\r"
  | 34 => String "\" quot
  | 92 => "\\"
  | n => if (n <? 32)%nat
         then ("\u00" ++ String (hex_digit (n / 16))
                           (String (hex_digit (n mod 16)) ""))%string
         else String a ""
  end.

Fixpoint quote_chars (s : string) : string :=
  match s with
  | EmptyString => EmptyString
  | String a s' => (quote_char a ++ quote_chars s')%string
  end.

(** [JSON.stringify] on an array of strings. *)
Definition JSON_stringify (values : list string) : string :=
  ("[" ++ Str.join "," (map (fun s => quot ++ quote_chars s ++ quot) values)
       ++ "]")%string.

(** What the constructor keeps of its [config]; [search_sections_items] is
    [search_sections.items], and [facet_fields] is the object that
    [getObjectFromObjectList] of [../helpers.jsx] makes of
    [config.facet_fields], of which [serialize] reads the keys only. *)
Record Serializer : Type := mkSerializer {
  reviewstatemapping : jsval;
  searchedFields : jsval;
  facet_fields : Obj.t jsval;
  allowed_content_types : jsval;
  allowed_review_states : jsval;
  search_sections_items : list (Obj.t jsval);
  analyzer : jsval
}.

(** A value as a condition. *)
Definition truthy (v : option jsval) : bool :=
  match v with
  | None => false
  | Some JUndefined => false
  | Some (JNum z) => negb (Z.eqb z 0)
  | Some (JInfinity _) => true
  | Some (JStr s) => negb (Str.isEmpty s)
  | Some (JArr _) => true
  | Some (JObj _) => true
  end.

Definition getFieldnameFromAgg (agg : string) : string :=
  remove_first_occurrence "_agg" agg.

(** [filters_dict['section']] for [filters_dict = keyBy(filters, e => e[0])]:
    the last filter of the sequence whose first element is [section]. *)
Definition section_of (filters : list FilterChain) : option FilterChain :=
  List.find (fun e => match e with Chain aggName _ _ => String.eqb aggName "section" end)
    (rev filters).

(** [section && section[1] === 'others'] *)
Definition section_is_others (section : option FilterChain) : bool :=
  match section with
  | Some (Chain _ fieldValue _) => String.eqb fieldValue "others"
  | None => false
  end.

(** [Object.keys(el.terms)] *)
Definition terms_keys (el : jsval) : list string :=
  match field "terms" el with
  | Some (JObj o) => Obj.keys o
  | _ => []
  end.

(** The name and the field of the aggregation of a facet. *)
Definition aggregation_name (fieldName : string) : string :=
  let aggName := (fieldName ++ "_agg")%string in
  if String.eqb fieldName "Subject" then "subjects_agg" else aggName.

Definition aggregation_field (fieldName : string) : string :=
  let field := fieldName in
  let field := if String.eqb fieldName "Subject" then "subjects.keyword" else field in
  if String.eqb fieldName "section" then "section.keyword" else field.

Section Serialize.
Variable this : Serializer.

(** [this.search_sections.items.map((el) => el.section)] *)
Definition sections : jsval :=
  JArr (map (get "section") this.(search_sections_items)).

Definition excluded_sections : jsval :=
  JArr [JObj [("terms", JObj [("section", sections)])]].

Definition terms : list jsval :=
  [ JObj [("terms", JObj [("portal_type", this.(allowed_content_types))])];
    JObj [("terms", JObj [("review_state", this.(allowed_review_states))])] ].

(** The [reduce] over [Object.keys(aggValueObj)].  Assigning an array to
    [obj['__proto__']] gives [obj] no property of its own. *)
Definition terms_of_selected_options (aggValueObj : Obj.t (list string))
  : list jsval :=
  fold_left
    (fun accumulator aggName =>
       let fieldName := getFieldnameFromAgg aggName in
       let obj :=
         if String.eqb fieldName "subjects"
         then [("subjects.keyword", values_of aggName aggValueObj)]
         else if String.eqb fieldName "__proto__" then []
         else [(fieldName, values_of aggName aggValueObj)] in
       if negb (String.eqb aggName "section") ||
          negb (match Obj.own aggName aggValueObj with
                | Some values =>
                    String.eqb (JSON_stringify values)
                      ("[" ++ quot ++ "others" ++ quot ++ "]")%string
                | None => false
                end)
       then accumulator ++ [JObj [("terms", JObj obj)]]
       else accumulator)
    (Obj.keys aggValueObj) [].

Definition post_filter (section : option FilterChain) (selected : list jsval)
  : jsval :=
  let post_filter := [("must", JArr (terms ++ selected))] in
  let post_filter :=
    if section_is_others section
    then Obj.set "must_not" excluded_sections post_filter
    else post_filter in
  JObj [("bool", JObj post_filter)].

(** [filter(fieldName)]: [res.bool], or nothing for [null]. *)
Definition filter (section : option FilterChain) (selected : list jsval)
  (fieldName : string) : option jsval :=
  let myAggsFilter := terms in
  let terms_of_selected_options_without_self :=
    List.filter
      (fun el => negb (existsb (String.eqb fieldName) (terms_keys el))) selected in
  let myAggsFilter := myAggsFilter ++ terms_of_selected_options_without_self in
  let res :=
    if truthy (Some (JArr myAggsFilter))
    then Some [("must", JArr myAggsFilter)]
    else None in
  let res :=
    if negb (String.eqb fieldName "section") then
      match section with
      | Some (Chain _ fieldValue _) =>
          if String.eqb fieldValue "others" then
            let res := match res with Some r => r | None => [] end in
            Some (Obj.set "must_not" excluded_sections res)
          else res
      | None => res
      end
    else res in
  match res with
  | Some r => Some (JObj [("bool", JObj r)])
  | None => None
  end.

(** The entry of one facet in [aggs]. *)
Definition aggregation (section : option FilterChain) (selected : list jsval)
  (fieldName : string) : jsval :=
  let aggName := aggregation_name fieldName in
  let field := aggregation_field fieldName in
  let component :=
    [("aggs",
      JObj [(aggName,
             JObj [("terms",
                    JObj [("field", JStr field);
                          ("order", JObj [("_key", JStr "asc")]);
                          ("size", JNum 500)])]);
            ("somemoredatafromelasticsearch",
             JObj [("top_hits",
                    JObj [("size", JNum 1);
                          ("_source", JObj [("includes", strings [field])])])])])] in
  let filter_fieldname := filter section selected fieldName in
  let component :=
    match filter_fieldname with
    | Some f => if truthy filter_fieldname then Obj.set "filter" f component
                else component
    | None => component
    end in
  JObj component.

Definition aggregations (section : option FilterChain) (selected : list jsval)
  : Obj.t jsval :=
  let aggregations := Obj.keys this.(facet_fields) in
  let aggregations := aggregations ++ ["section"] in
  fold_left
    (fun aggs fieldName =>
       Obj.set (aggregation_name fieldName) (aggregation section selected fieldName)
         aggs)
    aggregations [].

(** [query], [highlight], [sort], [size] and [from]. *)
Definition query_sort_paging (stateQuery : SearchState) (bodyParams : Obj.t jsval)
  : Obj.t jsval :=
  let bodyParams :=
    if negb (Str.isEmpty stateQuery.(queryString)) then
      let bodyParams :=
        Obj.set "query"
          (JObj [("multi_match",
                  JObj [("query", JStr stateQuery.(queryString));
                        ("fields", this.(searchedFields));
                        ("analyzer", this.(analyzer));
                        ("operator", JStr "or");
                        ("fuzziness", if force_fuzzy then JStr "AUTO" else JNum 0);
                        ("prefix_length", JNum 2);
                        ("type", JStr "most_fields");
                        ("minimum_should_match", JStr "75%")])])
          bodyParams in
      Obj.set "highlight"
        (JObj [("number_of_fragments", JNum 20); ("fields", JArr [])]) bodyParams
    else bodyParams in
  let bodyParams :=
    if negb (String.eqb stateQuery.(sortBy) "bestmatch") then
      Obj.set "sort"
        (JArr [sortObj stateQuery.(sortBy) stateQuery.(sortOrder)]) bodyParams
    else bodyParams in
  let bodyParams :=
    if (0 <? stateQuery.(size))%Z then
      Obj.set "size" (JNum stateQuery.(size)) bodyParams
    else bodyParams in
  if (0 <? stateQuery.(page))%Z then
    let s := if (0 <? stateQuery.(size))%Z then stateQuery.(size) else 0%Z in
    let from := Num.times (Num.minus stateQuery.(page) 1) s in
    Obj.set "from" from bodyParams
  else bodyParams.

(** [serialize] behind the flattening of the filters; [selected] is
    [terms_of_selected_options]. *)
Definition assemble (stateQuery : SearchState) (selected : list jsval) : jsval :=
  let bodyParams : Obj.t jsval := [] in
  let bodyParams := query_sort_paging stateQuery bodyParams in
  let section := section_of stateQuery.(filters) in
  let bodyParams :=
    Obj.set "post_filter" (post_filter section selected) bodyParams in
  let bodyParams :=
    Obj.set "aggs" (JObj (aggregations section selected)) bodyParams in
  JObj bodyParams.

(** [serialize(stateQuery)]: the request body, or the exception of
    [getFilters]. *)
Definition serialize (stateQuery : SearchState) : completion jsval :=
  selected <-
    (if has_length stateQuery.(filters) then
       aggValueObj <- getFilters stateQuery.(filters) ;;
       Normal (terms_of_selected_options aggValueObj)
     else Normal []) ;;
  Normal (assemble stateQuery selected).

End Serialize.

(** A sample configuration. *)
Definition sample : Serializer :=
  mkSerializer JUndefined (strings ["title^2"; "description"])
    [("type", JObj []); ("Subject", JObj [])]
    (strings ["Document"]) (strings ["published"])
    [[("section", JStr "news")]; [("section", JStr "blog")]]
    (JStr "standard").

End MultiMatch.

(** The values that are the single value [others]. *)
Definition only_others (values : list string) : bool :=
  match values with
  | [v] => String.eqb v "others"
  | _ => false
  end.

(** What a facet name and its selected values add to the terms of the
    selected options on [multi_match]: a [terms] clause on the field of the
    name, [subjects.keyword] for the subjects, and nothing for the name
    [section] whose values are the single value [others]. *)
Definition selected_terms (aggName : string) (values : list string)
  : list jsval :=
  if String.eqb aggName "section" && only_others values then []
  else
    let fieldName := MultiMatch.getFieldnameFromAgg aggName in
    [JObj [("terms",
            JObj (if String.eqb fieldName "subjects"
                  then [("subjects.keyword", JArr (map JStr values))]
                  else if String.eqb fieldName "__proto__" then []
                       else [(fieldName, JArr (map JStr values))]))]].

(** ** Properties of ordinary objects *)

Module ObjFacts.
Import Obj.

Section Facts.
Context {V : Type}.
Implicit Types (o : Obj.t V) (k : string) (v : V).

Lemma own_app k o1 o2 :
  own k (o1 ++ o2) = match own k o1 with Some v => Some v | None => own k o2 end.
Proof.
  induction o1 as [|[k' v'] o1 IH]; simpl; [reflexivity|].
  destruct (String.eqb k' k); [reflexivity | exact IH].
Qed.

Lemma own_overwrite_same k v o :
  own k (overwrite k v o) = match own k o with Some _ => Some v | None => None end.
Proof.
  induction o as [|[k' v'] o IH]; simpl; [reflexivity|].
  destruct (String.eqb k' k) eqn:E; simpl; rewrite E; [reflexivity | exact IH].
Qed.

Lemma own_overwrite_other k k' v o :
  k <> k' -> own k' (overwrite k v o) = own k' o.
Proof.
  intros Hne. induction o as [|[k0 v0] o IH]; simpl; [reflexivity|].
  destruct (String.eqb k0 k) eqn:E; simpl.
  - apply String.eqb_eq in E. subst k0.
    destruct (String.eqb k k') eqn:E'; [|reflexivity].
    apply String.eqb_eq in E'. contradiction.
  - destruct (String.eqb k0 k'); [reflexivity | exact IH].
Qed.

Lemma own_insert_index_same i k v o :
  own k o = None -> own k (insert_index i k v o) = Some v.
Proof.
  induction o as [|[k0 v0] o IH]; simpl; intros Hnone.
  - rewrite String.eqb_refl. reflexivity.
  - destruct (String.eqb k0 k) eqn:E; [discriminate|].
    destruct (array_index k0) as [j|]; [destruct (j <? i)%N|]; simpl;
      rewrite ?E, ?String.eqb_refl; auto.
Qed.

Lemma own_insert_index_other i k k' v o :
  k <> k' -> own k' (insert_index i k v o) = own k' o.
Proof.
  intros Hne. apply String.eqb_neq in Hne.
  induction o as [|[k0 v0] o IH]; simpl.
  - rewrite Hne. reflexivity.
  - destruct (array_index k0) as [j|]; [destruct (j <? i)%N|]; simpl;
      rewrite ?Hne; try reflexivity.
    destruct (String.eqb k0 k'); [reflexivity | exact IH].
Qed.

Lemma own_set_same k v o : own k (set k v o) = Some v.
Proof.
  unfold set, hasOwn. destruct (own k o) as [v0|] eqn:E.
  - rewrite own_overwrite_same, E. reflexivity.
  - destruct (array_index k) as [i|].
    + apply own_insert_index_same, E.
    + rewrite own_app, E. simpl. rewrite String.eqb_refl. reflexivity.
Qed.

Lemma own_set_other k k' v o : k <> k' -> own k' (set k v o) = own k' o.
Proof.
  intros Hne. unfold set. destruct (hasOwn k o).
  - apply own_overwrite_other, Hne.
  - destruct (array_index k) as [i|].
    + apply own_insert_index_other, Hne.
    + rewrite own_app. destruct (own k' o); [reflexivity|].
      simpl. apply String.eqb_neq in Hne. rewrite Hne. reflexivity.
Qed.

Lemma own_In_keys k o : own k o <> None <-> In k (keys o).
Proof.
  unfold keys. induction o as [|[k0 v0] o IH]; simpl.
  - split; [congruence | tauto].
  - destruct (String.eqb k0 k) eqn:E.
    + apply String.eqb_eq in E. split; [auto | discriminate].
    + apply String.eqb_neq in E. rewrite IH.
      split; [auto | intros [?|?]; [contradiction | assumption]].
Qed.

Lemma own_Some_In k v o : own k o = Some v -> In k (keys o).
Proof. intros H. apply own_In_keys. congruence. Qed.

Lemma keys_overwrite k v o : keys (overwrite k v o) = keys o.
Proof.
  unfold keys. induction o as [|[k0 v0] o IH]; simpl; [reflexivity|].
  destruct (String.eqb k0 k); simpl; [reflexivity | now rewrite IH].
Qed.

Lemma NoDup_keys_insert_index i k v o :
  own k o = None -> NoDup (keys o) -> NoDup (keys (insert_index i k v o)).
Proof.
  intros Hnone Hnd.
  assert (Hnew : NoDup (k :: keys o)).
  { constructor; [|exact Hnd]. intros Hin. apply own_In_keys in Hin. contradiction. }
  clear Hnd. revert Hnone Hnew.
  induction o as [|[k0 v0] o IH]; simpl; intros Hnone Hnew; [exact Hnew|].
  destruct (String.eqb k0 k) eqn:E; [discriminate|].
  destruct (array_index k0) as [j|]; [destruct (j <? i)%N|]; simpl; try exact Hnew.
  unfold keys in *. simpl in Hnew.
  inversion Hnew as [|? ? Hk Hrest]; subst.
  inversion Hrest as [|? ? Hk0 Ho]; subst.
  constructor.
  - intros Hin.
    assert (Hin' : In k0 (keys (insert_index i k v o)) ) by exact Hin.
    apply own_In_keys in Hin'. apply Hin'.
    rewrite own_insert_index_other.
    + destruct (own k0 o) eqn:E0; [|reflexivity].
      exfalso. apply Hk0. apply (own_Some_In _ _ _ E0).
    + intros ->. rewrite String.eqb_refl in E. discriminate.
  - apply IH; [exact Hnone|]. constructor; [|exact Ho].
    intros Hin. apply Hk. right. exact Hin.
Qed.

Lemma NoDup_keys_set k v o : NoDup (keys o) -> NoDup (keys (set k v o)).
Proof.
  intros Hnd. unfold set, hasOwn. destruct (own k o) as [v0|] eqn:E.
  - rewrite keys_overwrite. exact Hnd.
  - destruct (array_index k) as [i|].
    + apply NoDup_keys_insert_index; assumption.
    + unfold keys in *. rewrite map_app. simpl.
      apply NoDup_app; [exact Hnd | repeat constructor; auto |].
      intros x Hx [Hk|[]]. subst x.
      apply (proj2 (own_In_keys k o)) in Hx. contradiction.
Qed.

End Facts.
End ObjFacts.

(** ** The flattener *)

Lemma FilterChain_induction (P : FilterChain -> Prop) :
  (forall aggName fieldValue, P (Chain aggName fieldValue None)) ->
  (forall aggName fieldValue c, P c -> P (Chain aggName fieldValue (Some c))) ->
  forall c, P c.
Proof.
  intros Hleaf Hnode. fix IH 1. intros [aggName fieldValue [c|]].
  - apply Hnode, IH.
  - apply Hleaf.
Qed.

Lemma pushed_app before l1 l2 :
  pushed (pushed before l1) l2 = pushed before (l1 ++ l2).
Proof.
  destruct before as [values|]; simpl.
  - now rewrite app_assoc.
  - destruct l1; simpl; reflexivity.
Qed.

Lemma values_for_cons a v n ps :
  values_for n ((a, v) :: ps) =
  (if String.eqb a n then [v] else []) ++ values_for n ps.
Proof. unfold values_for. simpl. destruct (String.eqb a n); reflexivity. Qed.

Lemma values_for_app n ps1 ps2 :
  values_for n (ps1 ++ ps2) = values_for n ps1 ++ values_for n ps2.
Proof. unfold values_for. now rewrite filter_app, map_app. Qed.

Lemma flat_empty : flat [].
Proof. split; [constructor | intros k []]. Qed.

Lemma In_keys_set {V : Type} k x (v : V) o :
  In x (Obj.keys (Obj.set k v o)) -> x = k \/ In x (Obj.keys o).
Proof.
  intros Hin. destruct (String.eqb k x) eqn:E.
  - left. symmetry. now apply String.eqb_eq.
  - right. apply String.eqb_neq in E.
    apply ObjFacts.own_In_keys. apply ObjFacts.own_In_keys in Hin.
    now rewrite ObjFacts.own_set_other in Hin.
Qed.

Lemma flat_set k v o : flat o -> Obj.inherited k = false -> flat (Obj.set k v o).
Proof.
  intros [Hnd Hinh] Hk. split.
  - now apply ObjFacts.NoDup_keys_set.
  - intros x Hx. apply In_keys_set in Hx as [->|Hx]; auto.
Qed.

Lemma own_inherited_flat k o : flat o -> Obj.inherited k = true -> Obj.own k o = None.
Proof.
  intros [_ Hinh] Hk. destruct (Obj.own k o) eqn:E; [|reflexivity].
  apply ObjFacts.own_Some_In, Hinh in E. congruence.
Qed.

Lemma getChildFilter_unfold aggName fieldValue child o :
  getChildFilter (Chain aggName fieldValue child) o =
  (o' <- record aggName fieldValue o ;;
   match child with Some c => getChildFilter c o' | None => Normal o' end).
Proof. reflexivity. Qed.

Lemma record_inherited a v o :
  flat o -> Obj.inherited a = true -> record a v o = Throw.
Proof.
  intros Hflat Hinh. unfold record, Obj.has.
  rewrite Hinh, orb_true_r. now rewrite (own_inherited_flat a o Hflat Hinh).
Qed.

Lemma record_normal a v o :
  flat o -> Obj.inherited a = false ->
  exists o', record a v o = Normal o' /\ flat o' /\
             forall n, Obj.own n o' =
                       pushed (Obj.own n o) (if String.eqb a n then [v] else []).
Proof.
  intros Hflat Hinh. unfold record, Obj.has, Obj.hasOwn.
  rewrite Hinh, orb_false_r.
  destruct (Obj.own a o) as [values|] eqn:E.
  - eexists; split; [reflexivity|]. split; [now apply flat_set|].
    intros n. destruct (String.eqb a n) eqn:En.
    + apply String.eqb_eq in En. subst n.
      rewrite ObjFacts.own_set_same, E. reflexivity.
    + apply String.eqb_neq in En. rewrite ObjFacts.own_set_other by exact En.
      destruct (Obj.own n o); simpl; [now rewrite app_nil_r | reflexivity].
  - eexists; split; [reflexivity|]. split; [now apply flat_set|].
    intros n. destruct (String.eqb a n) eqn:En.
    + apply String.eqb_eq in En. subst n.
      rewrite ObjFacts.own_set_same, E. reflexivity.
    + apply String.eqb_neq in En. rewrite ObjFacts.own_set_other by exact En.
      destruct (Obj.own n o); simpl; [now rewrite app_nil_r | reflexivity].
Qed.

(** A chain of ordinary names is recorded pair by pair. *)
Lemma getChildFilter_normal c :
  forall o, flat o ->
  Forall (fun p => Obj.inherited (fst p) = false) (chain_pairs c) ->
  exists o', getChildFilter c o = Normal o' /\ flat o' /\
             forall n, Obj.own n o' = pushed (Obj.own n o) (values_for n (chain_pairs c)).
Proof.
  induction c as [a v | a v c IH] using FilterChain_induction;
    intros o Hflat Hnames; rewrite getChildFilter_unfold;
    inversion Hnames as [|? ? Ha Hrest]; subst; simpl in Ha;
    destruct (record_normal a v o Hflat Ha) as (o1 & -> & Hflat1 & Hown1); simpl.
  - exists o1. repeat split; try apply Hflat1. intros n.
    rewrite Hown1, values_for_cons. unfold values_for. simpl. now rewrite app_nil_r.
  - destruct (IH o1 Hflat1 Hrest) as (o2 & -> & Hflat2 & Hown2).
    exists o2. repeat split; try apply Hflat2. intros n.
    rewrite Hown2, Hown1, pushed_app, <- values_for_cons. reflexivity.
Qed.

(** A chain that mentions an inherited name makes the flattener throw. *)
Lemma getChildFilter_throws c :
  forall o, flat o ->
  Exists (fun p => Obj.inherited (fst p) = true) (chain_pairs c) ->
  getChildFilter c o = Throw.
Proof.
  induction c as [a v | a v c IH] using FilterChain_induction;
    intros o Hflat Hex; rewrite getChildFilter_unfold;
    destruct (Obj.inherited a) eqn:Ha;
    try (rewrite (record_inherited a v o Hflat Ha); reflexivity).
  - inversion Hex as [? ? Hh|? ? Ht]; subst; simpl in *; [congruence | inversion Ht].
  - destruct (record_normal a v o Hflat Ha) as (o1 & -> & Hflat1 & _). simpl.
    apply IH; [exact Hflat1|].
    inversion Hex as [? ? Hh|? ? Ht]; subst; simpl in *; [congruence | exact Ht].
Qed.

Lemma forEach_normal filters :
  forall o, flat o ->
  Forall (fun p => Obj.inherited (fst p) = false) (selections filters) ->
  exists o', forEach_getChildFilter filters o = Normal o' /\ flat o' /\
             forall n, Obj.own n o' = pushed (Obj.own n o) (values_for n (selections filters)).
Proof.
  induction filters as [|c fs IH]; intros o Hflat Hnames; simpl.
  - exists o. repeat split; try apply Hflat. intros n.
    destruct (Obj.own n o); simpl; [now rewrite app_nil_r | reflexivity].
  - unfold selections in Hnames. simpl in Hnames.
    apply Forall_app in Hnames as [Hc Hfs].
    destruct (getChildFilter_normal c o Hflat Hc) as (o1 & -> & Hflat1 & Hown1). simpl.
    destruct (IH o1 Hflat1 Hfs) as (o2 & -> & Hflat2 & Hown2).
    exists o2. repeat split; try apply Hflat2. intros n.
    rewrite Hown2, Hown1, pushed_app. unfold selections. simpl.
    now rewrite values_for_app.
Qed.

Lemma forEach_throws filters :
  forall o, flat o ->
  Exists (fun p => Obj.inherited (fst p) = true) (selections filters) ->
  forEach_getChildFilter filters o = Throw.
Proof.
  induction filters as [|c fs IH]; intros o Hflat Hex; simpl.
  - inversion Hex.
  - unfold selections in Hex. simpl in Hex. apply Exists_app in Hex.
    destruct (existsb (fun p => Obj.inherited (fst p)) (chain_pairs c)) eqn:Hc.
    + rewrite getChildFilter_throws; [reflexivity | exact Hflat |].
      apply existsb_exists in Hc as (p & Hp & Hinh).
      apply Exists_exists. now exists p.
    + assert (Hall : Forall (fun p => Obj.inherited (fst p) = false) (chain_pairs c)).
      { apply Forall_forall. intros p Hp.
        destruct (Obj.inherited (fst p)) eqn:E; [|reflexivity].
        assert (existsb (fun p => Obj.inherited (fst p)) (chain_pairs c) = true)
          by (apply existsb_exists; now exists p).
        congruence. }
      destruct (getChildFilter_normal c o Hflat Hall) as (o1 & -> & Hflat1 & _). simpl.
      apply IH; [exact Hflat1|].
      destruct Hex as [Hex|Hex]; [|exact Hex].
      apply Exists_exists in Hex as (p & Hp & Hinh).
      rewrite Forall_forall in Hall. rewrite (Hall p Hp) in Hinh. discriminate.
Qed.

(** The flattener on ordinary facet names: it returns, and every name is
    mapped to its values in the order of selection. *)
Lemma getFilters_normal filters :
  Forall (fun p => Obj.inherited (fst p) = false) (selections filters) ->
  exists o, getFilters filters = Normal o /\ flat o /\
            forall n, Obj.own n o = pushed None (values_for n (selections filters)).
Proof. intros H. exact (forEach_normal filters [] flat_empty H). Qed.

(** Whatever the flattener returns is flat and maps every name to its
    values. *)
Lemma getFilters_inv filters o :
  getFilters filters = Normal o ->
  flat o /\ forall n, Obj.own n o = pushed None (values_for n (selections filters)).
Proof.
  intros Hget.
  destruct (existsb (fun p => Obj.inherited (fst p)) (selections filters)) eqn:E.
  - apply existsb_exists in E as (p & Hp & Hinh).
    unfold getFilters in Hget. rewrite forEach_throws in Hget; [discriminate | apply flat_empty |].
    apply Exists_exists. now exists p.
  - assert (Hall : Forall (fun p => Obj.inherited (fst p) = false) (selections filters)).
    { apply Forall_forall. intros p Hp.
      destruct (Obj.inherited (fst p)) eqn:E'; [|reflexivity].
      assert (existsb (fun p => Obj.inherited (fst p)) (selections filters) = true)
        by (apply existsb_exists; now exists p).
      congruence. }
    destruct (getFilters_normal filters Hall) as (o' & Ho' & Hflat & Hown).
    rewrite Hget in Ho'. injection Ho' as <-. now split.
Qed.

(** ** Numbers as doubles *)

(** Up to 2^53 every integer is a double. *)
Lemma nearest_double_exact n :
  (Z.abs n <= 2 ^ 53)%Z -> Num.nearest_double n = n.
Proof.
  intros H. unfold Num.nearest_double. cbv zeta.
  destruct (Z.abs n <? 2 ^ 53)%Z eqn:E; [reflexivity|].
  apply Z.ltb_ge in E.
  change (2 ^ 53)%Z with 9007199254740992%Z in *.
  assert (Hn : n = 9007199254740992%Z \/ n = (-9007199254740992)%Z) by lia.
  destruct Hn as [-> | ->]; reflexivity.
Qed.

Lemma times_exact a b :
  (Z.abs (a * b) <= 2 ^ 53)%Z -> Num.times a b = JNum (a * b).
Proof.
  intros H. unfold Num.times. cbv zeta. rewrite (nearest_double_exact _ H).
  destruct (2 ^ 1024 <=? Z.abs (a * b))%Z eqn:E; [|reflexivity].
  apply Z.leb_le in E.
  assert (2 ^ 53 < 2 ^ 1024)%Z by (apply Z.pow_lt_mono_r; lia). lia.
Qed.

(** ** The request body *)

Ltac own_step :=
  first
    [ rewrite ObjFacts.own_set_same
    | rewrite ObjFacts.own_set_other by discriminate
    | match goal with
      | |- context [Obj.own _ (if ?c then _ else _)] => destruct c eqn:?
      end ].

Ltac own_solve := unfold field; repeat own_step; try reflexivity.

Section Body.
Variables listFilterFields nestedFilterFields : list string.
Variable this : Serializer.

(** What [serialize] returns is [assemble] on the flattened filters. *)
Lemma serialize_inv st body :
  serialize listFilterFields nestedFilterFields this st = Normal body ->
  (filters st = [] /\ body = assemble listFilterFields nestedFilterFields this st None) \/
  (exists o, filters st <> [] /\ getFilters (filters st) = Normal o /\
             body = assemble listFilterFields nestedFilterFields this st (Some o)).
Proof.
  unfold serialize. destruct (filters st) as [|c fs] eqn:Hfs; simpl.
  - intros [= <-]. left. now split.
  - destruct (getFilters (c :: fs)) as [o|] eqn:Hget; simpl; [|discriminate].
    intros [= <-]. right. exists o. repeat split; congruence.
Qed.

Lemma serialize_assemble st body :
  serialize listFilterFields nestedFilterFields this st = Normal body ->
  exists selected,
    body = assemble listFilterFields nestedFilterFields this st selected.
Proof.
  intros H. destruct (serialize_inv st body H) as [[_ ->]|(o & _ & _ & ->)]; eauto.
Qed.

(** The keys of the head are not touched by what follows. *)
Lemma assemble_head st selected k :
  k <> "post_filter" -> k <> "aggs" ->
  field k (assemble listFilterFields nestedFilterFields this st selected) =
  Obj.own k (query_sort_paging this st []).
Proof.
  intros H1 H2. unfold assemble, field. cbv zeta.
  rewrite !ObjFacts.own_set_other by congruence. reflexivity.
Qed.

Lemma assemble_post_filter st selected :
  field "post_filter" (assemble listFilterFields nestedFilterFields this st selected) =
  Some (post_filter (fst (terms_and_filter listFilterFields nestedFilterFields this selected))
                    (snd (terms_and_filter listFilterFields nestedFilterFields this selected))).
Proof. unfold assemble. cbv zeta. own_solve. Qed.

Lemma assemble_aggs st selected :
  field "aggs" (assemble listFilterFields nestedFilterFields this st selected) =
  Some (aggregations listFilterFields nestedFilterFields
          (snd (terms_and_filter listFilterFields nestedFilterFields this selected))).
Proof. unfold assemble. cbv zeta. own_solve. Qed.

Lemma head_size st :
  Obj.own "size" (query_sort_paging this st []) =
  if (0 <? size st)%Z then Some (JNum (size st)) else None.
Proof. unfold query_sort_paging. cbv zeta. repeat own_step; reflexivity. Qed.

Lemma head_from st :
  Obj.own "from" (query_sort_paging this st []) =
  if (0 <? page st)%Z
  then Some (Num.times (Num.minus (page st) 1)
               (if (0 <? size st)%Z then size st else 0))
  else None.
Proof. unfold query_sort_paging. cbv zeta. repeat own_step; reflexivity. Qed.

Lemma head_query st :
  Obj.own "query" (query_sort_paging this st []) =
  if Str.isEmpty (queryString st) then None
  else Some (bool_query this (queryString st)).
Proof.
  unfold query_sort_paging. cbv zeta.
  destruct (Str.isEmpty (queryString st)); simpl negb; cbv iota;
    repeat own_step; reflexivity.
Qed.

Lemma head_highlight st :
  Obj.own "highlight" (query_sort_paging this st []) =
  if Str.isEmpty (queryString st) then None else Some highlight.
Proof.
  unfold query_sort_paging. cbv zeta.
  destruct (Str.isEmpty (queryString st)); simpl negb; cbv iota;
    repeat own_step; reflexivity.
Qed.

Lemma serialize_no_filters st :
  filters st = [] ->
  serialize listFilterFields nestedFilterFields this st =
  Normal (assemble listFilterFields nestedFilterFields this st None).
Proof. intros H. unfold serialize. rewrite H. reflexivity. Qed.

(** [serialize] returns whenever no selected facet name is inherited. *)
Lemma serialize_returns st :
  Forall (fun p => Obj.inherited (fst p) = false) (selections (filters st)) ->
  exists body, serialize listFilterFields nestedFilterFields this st = Normal body.
Proof.
  intros Hnames. unfold serialize. destruct (has_length (filters st)).
  - destruct (getFilters_normal _ Hnames) as (o & -> & _). simpl. eauto.
  - simpl. eauto.
Qed.

(** C8, amended: [size] is a key of the request exactly when [size > 0],
    and holds [size]; [from] is a key exactly when [page > 0], and holds the
    product of [page - 1] and [s], [s] being the size when that is positive
    and 0 otherwise, as doubles give it: [(page - 1) * s] itself as long as
    [page - 1] and the product do not exceed 2^53, the nearest double beyond.
    So page 3 with size 10 starts from 20, page 0 gives no [from], and size 0
    gives no [size] and a [from] of [(page - 1) * 0]. *)
Theorem size_and_from st body :
  serialize listFilterFields nestedFilterFields this st = Normal body ->
  (field "size" body <> None <-> (0 < size st)%Z) /\
  ((0 < size st)%Z -> field "size" body = Some (JNum (size st))) /\
  (field "from" body <> None <-> (0 < page st)%Z) /\
  ((0 < page st)%Z ->
   (page st - 1 <= 2 ^ 53)%Z ->
   ((page st - 1) * (if (0 <? size st)%Z then size st else 0) <= 2 ^ 53)%Z ->
   field "from" body =
   Some (JNum ((page st - 1) * (if (0 <? size st)%Z then size st else 0)))) /\
  ((0 < page st)%Z ->
   field "from" body =
   Some (Num.times (Num.nearest_double (page st - 1))
           (if (0 <? size st)%Z then size st else 0))) /\
  (page st = 3%Z -> size st = 10%Z -> field "from" body = Some (JNum 20)) /\
  (page st = 0%Z -> field "from" body = None) /\
  (size st = 0%Z ->
   field "size" body = None /\
   ((0 < page st)%Z -> field "from" body = Some (JNum ((page st - 1) * 0)))).
Proof.
  intros Hser. destruct (serialize_assemble st body Hser) as [selected ->].
  rewrite !assemble_head by discriminate. rewrite head_size, head_from.
  assert (Hexact : (0 < page st)%Z -> (page st - 1 <= 2 ^ 53)%Z ->
            forall s, (0 <= s)%Z -> ((page st - 1) * s <= 2 ^ 53)%Z ->
            Num.times (Num.minus (page st) 1) s = JNum ((page st - 1) * s)).
  { intros Hp Hp1 s Hs Hprod. unfold Num.minus.
    rewrite nearest_double_exact by lia. apply times_exact.
    rewrite Z.abs_eq; [exact Hprod | apply Z.mul_nonneg_nonneg; lia]. }
  assert (H53 : (20 <= 2 ^ 53)%Z) by discriminate.
  split; [|split; [|split; [|split; [|split; [|split; [|split]]]]]].
  - destruct (0 <? size st)%Z eqn:E;
      [apply Z.ltb_lt in E | apply Z.ltb_ge in E]; split; intros H;
      try congruence; try lia.
  - intros H. apply Z.ltb_lt in H. now rewrite H.
  - destruct (0 <? page st)%Z eqn:E;
      [apply Z.ltb_lt in E | apply Z.ltb_ge in E]; split; intros H;
      try congruence; try lia.
  - intros Hp Hp1 Hprod. rewrite (proj2 (Z.ltb_lt _ _) Hp). f_equal.
    apply Hexact; auto. destruct (0 <? size st)%Z eqn:E; [apply Z.ltb_lt in E|]; lia.
  - intros Hp. rewrite (proj2 (Z.ltb_lt _ _) Hp). reflexivity.
  - intros Hp Hs. rewrite Hp, Hs. reflexivity.
  - intros Hp. rewrite Hp. reflexivity.
  - intros Hs. rewrite Hs. split; [reflexivity|].
    intros Hp. rewrite (proj2 (Z.ltb_lt _ _) Hp). cbn [Z.ltb Z.compare]. f_equal.
    unfold Num.times. rewrite !Z.mul_0_r. reflexivity.
Qed.

(** C10: whatever the search state, the request has a [post_filter] whose
    [bool.must] starts with the clause on the allowed content types and the
    clause on the allowed review states, and it has an [aggs] object. *)
Theorem post_filter_and_aggs_always st body :
  serialize listFilterFields nestedFilterFields this st = Normal body ->
  (exists rest,
     path ["post_filter"; "bool"; "must"] body =
     Some (JArr (JObj [("terms", JObj [("portal_type", strings ["Manual"])])] ::
                 JObj [("terms",
                        JObj [("review_state",
                               get "Manual" (reviewstatemapping this))])] ::
                 rest))) /\
  (exists aggs, field "aggs" body = Some (JObj aggs)).
Proof.
  intros Hser. destruct (serialize_assemble st body Hser) as [selected ->]. split.
  - exists (match selected with
            | Some o => additionalterms listFilterFields o
            | None => []
            end).
    unfold path. rewrite assemble_post_filter.
    unfold post_filter, terms_and_filter. cbv zeta.
    destruct selected as [o|]; simpl fst; simpl snd;
      destruct (negb (isEmpty (JArr _))); unfold field;
      cbn [Obj.own String.eqb Ascii.eqb Bool.eqb];
      rewrite ?ObjFacts.own_set_other by discriminate; reflexivity.
  - rewrite assemble_aggs. unfold aggregations. eauto.
Qed.

(** All words of a query string of white space are dropped. *)
Lemma tokenize_blank q : Str.trim q = "" -> tokenize q = no_words.
Proof. intros H. unfold tokenize, words_of. rewrite H. reflexivity. Qed.

(** C3, amended: with the empty query string the request has neither
    [query] nor [highlight]; with any other query string, one of white space
    included, it has both, and for white space only the three lists of the
    [bool] query are empty. *)
Theorem query_and_highlight_keys st body :
  serialize listFilterFields nestedFilterFields this st = Normal body ->
  (queryString st = "" ->
   field "query" body = None /\ field "highlight" body = None) /\
  (queryString st <> "" ->
   field "query" body = Some (bool_query this (queryString st)) /\
   field "highlight" body = Some highlight) /\
  (Str.trim (queryString st) = "" ->
   bool_query this (queryString st) =
   JObj [("bool", JObj [("should", JArr []); ("must", JArr []);
                        ("must_not", JArr [])])]).
Proof.
  intros Hser. destruct (serialize_assemble st body Hser) as [selected ->].
  rewrite !assemble_head by discriminate. rewrite head_query, head_highlight.
  repeat split.
  - rewrite H. reflexivity.
  - rewrite H. reflexivity.
  - destruct (queryString st); [contradiction | reflexivity].
  - destruct (queryString st); [contradiction | reflexivity].
  - intros Hblank. unfold bool_query. rewrite (tokenize_blank _ Hblank). reflexivity.
Qed.

Lemma push_when_nil cond clause : push_when cond clause [] = [] <-> cond = false.
Proof. destruct cond; simpl; split; congruence. Qed.

Lemma has_length_false {A : Type} (l : list A) : has_length l = false <-> l = [].
Proof. destruct l; simpl; split; congruence. Qed.

(** C2, amended: for a non-empty query string the [bool] query always has
    the three keys [should], [must] and [must_not].  Each holds an array with
    one [query_string] clause for every non-empty list behind it, on the
    fragments of that list joined by spaces and on the searched fields (the
    exact fields for an exact list), so an array is empty exactly when its
    lists are, and its key stays. *)
Theorem bool_query_keys st body :
  serialize listFilterFields nestedFilterFields this st = Normal body ->
  queryString st <> "" ->
  path ["query"; "bool"] body =
  Some (JObj
          [("should",
            JArr (clauses_of (qs_tailored_should_notexact (tokenize (queryString st)))
                    (simpleFields this) ++
                  clauses_of (qs_tailored_should_exact (tokenize (queryString st)))
                    (map exact_field (simpleFields this))));
           ("must",
            JArr (clauses_of (qs_tailored_must_notexact (tokenize (queryString st)))
                    (simpleFields this) ++
                  clauses_of (qs_tailored_must_exact (tokenize (queryString st)))
                    (map exact_field (simpleFields this))));
           ("must_not",
            JArr (clauses_of (qs_tailored_mustNot_exact (tokenize (queryString st)))
                    (map exact_field (simpleFields this))))]) /\
  exists should must must_not,
    path ["query"; "bool"] body =
    Some (JObj [("should", JArr should); ("must", JArr must);
                ("must_not", JArr must_not)]) /\
    (should = [] <->
     qs_tailored_should_notexact (tokenize (queryString st)) = [] /\
     qs_tailored_should_exact (tokenize (queryString st)) = []) /\
    (must = [] <->
     qs_tailored_must_notexact (tokenize (queryString st)) = [] /\
     qs_tailored_must_exact (tokenize (queryString st)) = []) /\
    (must_not = [] <->
     qs_tailored_mustNot_exact (tokenize (queryString st)) = []).
Proof.
  intros Hser Hq. destruct (serialize_assemble st body Hser) as [selected ->].
  unfold path. rewrite assemble_head by discriminate. rewrite head_query.
  destruct (queryString st) as [|a q] eqn:Eq; [contradiction|]. simpl Str.isEmpty. cbv iota.
  unfold bool_query. cbv zeta.
  set (b := tokenize (String a q)). split.
  - destruct (qs_tailored_should_notexact b), (qs_tailored_should_exact b),
             (qs_tailored_must_notexact b), (qs_tailored_must_exact b),
             (qs_tailored_mustNot_exact b); reflexivity.
  - eexists _, _, _. split; [reflexivity|].
    rewrite <- !has_length_false.
    destruct (has_length (qs_tailored_should_notexact b)),
             (has_length (qs_tailored_should_exact b)),
             (has_length (qs_tailored_must_notexact b)),
             (has_length (qs_tailored_must_exact b)),
             (has_length (qs_tailored_mustNot_exact b)); simpl;
      repeat split; intros; try congruence; try discriminate;
      try (match goal with H : _ /\ _ |- _ => destruct H; discriminate end).
Qed.

End Body.

(** ** The tokenizer on single words *)

(** A word behind a minus sign goes to the excluded words as it stands
    behind the sign, quotation marks and all. *)
Lemma minus_word_verbatim rest b :
  _make_fuzzy_and_enrich_with_word_parts (String "-" rest) b =
  mkBuckets (qs_tailored_should_notexact b) (qs_tailored_should_exact b)
    (qs_tailored_must_notexact b) (qs_tailored_must_exact b)
    (qs_tailored_mustNot_exact b ++ [rest]).
Proof.
  unfold _make_fuzzy_and_enrich_with_word_parts, Str.startsWith.
  destruct rest; reflexivity.
Qed.

(** C4, on the word [-"foo"]: the tokenizer pushes ["foo"] with both
    quotation marks onto the excluded words, not [foo]. *)
Theorem minus_word_keeps_quotation_marks :
  tokenize ("-" ++ quot ++ "foo" ++ quot)%string =
  mkBuckets [] [] [] [] [(quot ++ "foo" ++ quot)%string] /\
  _removeQuotationMarks (quot ++ "foo" ++ quot)%string <> "foo".
Proof. split; [reflexivity | discriminate]. Qed.

(** C7: the query string [+foo -bar "baz"] is sorted into [foo] among the
    required fuzzy words, [bar] among the excluded words and ["baz"] among
    the optional exact words; the other two lists stay empty. *)
Theorem tokenize_plus_minus_quoted :
  tokenize ("+foo -bar " ++ quot ++ "baz" ++ quot)%string =
  {| qs_tailored_should_notexact := [];
     qs_tailored_should_exact := [(quot ++ "baz" ++ quot)%string];
     qs_tailored_must_notexact := ["foo"];
     qs_tailored_must_exact := [];
     qs_tailored_mustNot_exact := ["bar"] |}.
Proof. reflexivity. Qed.

(** The example of the flattener's documentation. *)
Lemma getFilters_type_sub :
  getFilters [Chain "type" "A" None;
              Chain "type" "B" (Some (Chain "sub" "X" None))] =
  Normal [("type", ["A"; "B"]); ("sub", ["X"])].
Proof. reflexivity. Qed.

(** C6, on the chain [["toString", "A"]]: the name is [in] the empty
    accumulator through [Object.prototype], the flattener pushes onto what is
    not an array and throws instead of returning a mapping. *)
Theorem getFilters_inherited_name_throws :
  Obj.has "toString" (@nil (string * list string)) = true /\
  getFilters [Chain "toString" "A" None] = Throw.
Proof. split; reflexivity. Qed.

(** C9, on a chain whose facet name [toString] is not configured: the
    serializer throws with the flattener and returns no request body. *)
Theorem serialize_inherited_name_throws :
  Obj.own "toString" aggFieldsMapping = None /\
  forall listFilterFields nestedFilterFields this q p s,
    serialize listFilterFields nestedFilterFields this
      (state_of q p s [Chain "toString" "A" None]) = Throw.
Proof. split; reflexivity. Qed.

(** ** The clauses of the selected facets *)

Lemma fold_left_push {A B : Type} (c : A -> bool) (g : A -> B) l :
  forall init,
  fold_left (fun acc x => if c x then acc ++ [g x] else acc) l init =
  init ++ flat_map (fun x => if c x then [g x] else []) l.
Proof.
  induction l as [|x l IH]; intros init; simpl.
  - now rewrite app_nil_r.
  - rewrite IH. destruct (c x); simpl; [now rewrite <- app_assoc | reflexivity].
Qed.

Lemma includes_In a f : includes a (Some f) = true <-> In f a.
Proof.
  simpl. rewrite existsb_exists. split.
  - intros (x & Hx & E). apply String.eqb_eq in E. now subst.
  - intros H. exists f. split; [exact H | apply String.eqb_refl].
Qed.

Lemma own_In_pair {V : Type} k (v : V) o : Obj.own k o = Some v -> In (k, v) o.
Proof.
  induction o as [|[k' v'] o IH]; simpl; [discriminate|].
  destruct (String.eqb k' k) eqn:E.
  - apply String.eqb_eq in E. intros [= ->]. left. now subst.
  - intros H. right. now apply IH.
Qed.

(** No two aggregation names share a field. *)
Lemma aggFieldsMapping_injective k k' f :
  Obj.own k aggFieldsMapping = Some f -> Obj.own k' aggFieldsMapping = Some f ->
  k = k'.
Proof.
  intros H H'. apply own_In_pair in H, H'. unfold aggFieldsMapping in *.
  simpl in H, H'. intuition congruence.
Qed.

(** The head of an aggregation name starts with the field of that name, and
    with the field of no other name. *)
Lemma own_field_is_prefix k f :
  Obj.own k aggFieldsMapping = Some f -> Str.startsWith f (first_segment k) = true.
Proof.
  intros H. apply own_In_pair in H. unfold aggFieldsMapping in H. simpl in H.
  repeat (destruct H as [[= <- <-]|H]; [reflexivity|]). destruct H.
Qed.

Lemma other_field_is_no_prefix k f k' f' :
  Obj.own k aggFieldsMapping = Some f -> Obj.own k' aggFieldsMapping = Some f' ->
  k <> k' -> Str.startsWith f (first_segment k') = false.
Proof.
  intros H H' Hne. apply own_In_pair in H, H'. unfold aggFieldsMapping in *.
  simpl in H, H'.
  repeat (destruct H as [[= <- <-]|H]);
    repeat (destruct H' as [[= <- <-]|H']);
    try contradiction; try reflexivity; now destruct Hne.
Qed.

Lemma first_segment_injective k f k' f' :
  Obj.own k aggFieldsMapping = Some f -> Obj.own k' aggFieldsMapping = Some f' ->
  first_segment k = first_segment k' -> k = k'.
Proof.
  intros H H' E. apply own_In_pair in H, H'. unfold aggFieldsMapping in *.
  simpl in H, H'.
  repeat (destruct H as [[= <- <-]|H]);
    repeat (destruct H' as [[= <- <-]|H']);
    try contradiction; try reflexivity; discriminate E.
Qed.

Lemma nested_path_clause f v : nested_path (nested_clause f v) = f.
Proof. reflexivity. Qed.

Section Clauses.
Variables listFilterFields nestedFilterFields : list string.
Variable this : Serializer.

(** The clause a selected name contributes to [filter], if any. *)
Lemma nested_filter_flat_map o :
  nested_filter nestedFilterFields o =
  flat_map
    (fun aggName =>
       if includes nestedFilterFields (Obj.own aggName aggFieldsMapping)
       then [nested_clause (property_key (Obj.own aggName aggFieldsMapping))
               (values_of aggName o)]
       else [])
    (Obj.keys o).
Proof.
  unfold nested_filter. cbv zeta.
  exact (fold_left_push
           (fun aggName => includes nestedFilterFields (Obj.own aggName aggFieldsMapping))
           (fun aggName => nested_clause (property_key (Obj.own aggName aggFieldsMapping))
                             (values_of aggName o))
           (Obj.keys o) []).
Qed.

Lemma includes_Some a x :
  includes a x = true -> exists f, x = Some f /\ In f a.
Proof.
  destruct x as [f|]; [|discriminate]. intros H. exists f. split; [reflexivity|].
  now apply includes_In.
Qed.

(** Where every element of [filter] comes from. *)
Lemma nested_filter_origin o el :
  In el (nested_filter nestedFilterFields o) ->
  exists aggName fieldName values,
    Obj.own aggName o = Some values /\
    Obj.own aggName aggFieldsMapping = Some fieldName /\
    In fieldName nestedFilterFields /\
    el = nested_clause fieldName (strings values).
Proof.
  rewrite nested_filter_flat_map, in_flat_map. intros (aggName & Hkey & Hel).
  destruct (includes nestedFilterFields (Obj.own aggName aggFieldsMapping)) eqn:Hinc;
    [|destruct Hel].
  destruct Hel as [<-|[]].
  destruct (includes_Some _ _ Hinc) as (fieldName & Hf & Hin).
  apply ObjFacts.own_In_keys in Hkey.
  destruct (Obj.own aggName o) as [values|] eqn:Hown; [|congruence].
  exists aggName, fieldName, values. repeat split; auto.
  unfold values_of. rewrite Hown, Hf. reflexivity.
Qed.

(** A selected nested facet has one clause in [filter], and no other element
    of [filter] is on its path. *)
Lemma nested_filter_clause o aggName fieldName values :
  NoDup (Obj.keys o) ->
  Obj.own aggName o = Some values ->
  Obj.own aggName aggFieldsMapping = Some fieldName ->
  In fieldName nestedFilterFields ->
  exists before after,
    nested_filter nestedFilterFields o =
    before ++ nested_clause fieldName (strings values) :: after /\
    forall el, In el (before ++ after) -> nested_path el <> fieldName.
Proof.
  intros Hnd Hown Hmap Hin.
  assert (Hkey : In aggName (Obj.keys o)) by (eapply ObjFacts.own_Some_In; eauto).
  destruct (in_split _ _ Hkey) as (l1 & l2 & Hsplit).
  set (g := fun aggName =>
              if includes nestedFilterFields (Obj.own aggName aggFieldsMapping)
              then [nested_clause (property_key (Obj.own aggName aggFieldsMapping))
                      (values_of aggName o)]
              else []).
  exists (flat_map g l1), (flat_map g l2). split.
  - rewrite nested_filter_flat_map. fold g. rewrite Hsplit, flat_map_app. simpl.
    f_equal. unfold g at 1. rewrite Hmap.
    rewrite (proj2 (includes_In _ _) Hin). unfold values_of. rewrite Hown. reflexivity.
  - intros el Hel Hpath.
    assert (Hother : exists k, In k (l1 ++ l2) /\ In el (g k)).
    { apply in_app_or in Hel as [Hel|Hel]; apply in_flat_map in Hel as (k & Hk & Hg);
        exists k; split; auto; apply in_or_app; auto. }
    destruct Hother as (k & Hk & Hg). unfold g in Hg.
    destruct (includes nestedFilterFields (Obj.own k aggFieldsMapping)) eqn:Hinc;
      [|destruct Hg].
    destruct Hg as [<-|[]].
    destruct (includes_Some _ _ Hinc) as (f & Hf & _).
    rewrite Hf, nested_path_clause in Hpath. simpl in Hpath. subst f.
    assert (k = aggName) by (eapply aggFieldsMapping_injective; eauto). subst k.
    rewrite Hsplit in Hnd. apply NoDup_remove_2 in Hnd. contradiction.
Qed.

End Clauses.

(** ** The post-filter and the aggregations *)

(** Conditional writes in a loop: a key written for [G] holds the value of
    [G] at the end when every later writer of that key writes the same. *)
Lemma own_fold_set {V : Type} (c : string -> bool) (key : string -> string)
  (val : string -> V) (G : string) ks :
  forall o,
  c G = true ->
  (forall k, In k ks -> c k = true -> key k = key G -> val k = val G) ->
  In G ks \/ Obj.own (key G) o = Some (val G) ->
  Obj.own (key G)
    (fold_left (fun o k => if c k then Obj.set (key k) (val k) o else o) ks o) =
  Some (val G).
Proof.
  induction ks as [|k ks IH]; intros o HG Hsame Hstart; simpl.
  - destruct Hstart as [[]|H]. exact H.
  - apply IH; [exact HG | intros k' Hk'; apply Hsame; now right |].
    destruct Hstart as [[->|Hin]|Hown].
    + right. rewrite HG. apply ObjFacts.own_set_same.
    + now left.
    + right. destruct (c k) eqn:Hc; [|exact Hown].
      destruct (String.eqb (key k) (key G)) eqn:E.
      * apply String.eqb_eq in E. rewrite E, <- (Hsame k (or_introl eq_refl) Hc E).
        apply ObjFacts.own_set_same.
      * apply String.eqb_neq in E. now rewrite ObjFacts.own_set_other.
Qed.

Lemma aggregation_filter_not_empty filter agg :
  isEmpty (aggregation_filter filter agg) = false.
Proof. unfold aggregation_filter. destruct (isEmpty (JArr filter)); reflexivity. Qed.

Section Aggregations.
Variables listFilterFields nestedFilterFields : list string.
Variable this : Serializer.

(** The entry of a nested facet [G]: its aggregation and the filter around
    it. *)
Lemma nested_aggregation_entry filter aggs G fieldG :
  Obj.own G aggFieldsMapping = Some fieldG ->
  In fieldG nestedFilterFields ->
  Obj.own (first_segment G) (nested_aggregations nestedFilterFields filter aggs) =
  Some (JObj (nested_aggregation (Str.split "." G) fieldG ++
              [("filter", aggregation_filter filter (Str.split "." G))])).
Proof.
  intros Hmap Hin. unfold nested_aggregations. cbv zeta.
  set (c := fun aggName => includes nestedFilterFields (Obj.own aggName aggFieldsMapping)).
  set (val := fun aggName =>
     JObj (if negb (isEmpty (aggregation_filter filter (Str.split "." aggName)))
           then Obj.set "filter" (aggregation_filter filter (Str.split "." aggName))
                  (nested_aggregation (Str.split "." aggName)
                     (property_key (Obj.own aggName aggFieldsMapping)))
           else nested_aggregation (Str.split "." aggName)
                  (property_key (Obj.own aggName aggFieldsMapping)))).
  change (Obj.own (first_segment G)
            (fold_left (fun o k => if c k then Obj.set (first_segment k) (val k) o else o)
               (Obj.keys aggFieldsMapping) aggs) =
          Some (JObj (nested_aggregation (Str.split "." G) fieldG ++
                      [("filter", aggregation_filter filter (Str.split "." G))]))).
  rewrite (own_fold_set c first_segment val G).
  - unfold val. rewrite aggregation_filter_not_empty, Hmap. reflexivity.
  - unfold c. rewrite Hmap. now apply includes_In.
  - intros k Hk Hc Hseg. f_equal.
    assert (k = G); [|now subst].
    apply ObjFacts.own_In_keys in Hk.
    destruct (Obj.own k aggFieldsMapping) as [f|] eqn:Hf; [|congruence].
    eapply first_segment_injective; eauto.
  - left. eapply ObjFacts.own_Some_In; eauto.
Qed.

(** The list [filter] as it stands in [post_filter.bool.filter]: the clause
    of every selected nested facet once, nothing else, and no key for the
    empty list. *)
Lemma nested_clauses_in_post_filter st body :
  serialize listFilterFields nestedFilterFields this st = Normal body ->
  (forall aggName fieldName,
     Obj.own aggName aggFieldsMapping = Some fieldName ->
     In fieldName nestedFilterFields ->
     values_for aggName (selections (filters st)) <> [] ->
     exists before after,
       path ["post_filter"; "bool"; "filter"] body =
       Some (JArr (before ++
                   nested_clause fieldName
                     (strings (values_for aggName (selections (filters st)))) ::
                   after)) /\
       forall el, In el (before ++ after) -> nested_path el <> fieldName) /\
  (forall clauses el,
     path ["post_filter"; "bool"; "filter"] body = Some (JArr clauses) ->
     In el clauses ->
     exists aggName fieldName,
       Obj.own aggName aggFieldsMapping = Some fieldName /\
       In fieldName nestedFilterFields /\
       values_for aggName (selections (filters st)) <> [] /\
       el = nested_clause fieldName
              (strings (values_for aggName (selections (filters st))))) /\
  ((forall aggName fieldName,
      Obj.own aggName aggFieldsMapping = Some fieldName ->
      In fieldName nestedFilterFields ->
      values_for aggName (selections (filters st)) = []) ->
   path ["post_filter"; "bool"; "filter"] body = None).
Proof.
  intros Hser.
  assert (Hpath : forall selected,
    path ["post_filter"; "bool"; "filter"]
      (assemble listFilterFields nestedFilterFields this st selected) =
    match snd (terms_and_filter listFilterFields nestedFilterFields this selected) with
    | [] => None
    | l => Some (JArr l)
    end).
  { intros selected. unfold path. rewrite assemble_post_filter.
    unfold post_filter. cbv zeta.
    destruct (snd (terms_and_filter _ _ _ selected)) as [|el l]; [reflexivity|].
    simpl isEmpty. simpl negb. cbv iota. unfold field.
    cbn [Obj.own String.eqb Ascii.eqb Bool.eqb].
    now rewrite ObjFacts.own_set_same. }
  destruct (serialize_inv _ _ _ st body Hser) as [[Hnil ->]|(o & Hne & Hget & ->)];
    rewrite Hpath.
  - rewrite Hnil. simpl. repeat split.
    + intros ? ? _ _ H. now destruct H.
    + discriminate.
  - destruct (getFilters_inv _ _ Hget) as [[Hnd _] Hown]. simpl snd.
    repeat split.
    + intros aggName fieldName Hmap Hin Hsel.
      assert (Ho : Obj.own aggName o =
                   Some (values_for aggName (selections (filters st)))).
      { rewrite Hown. destruct (values_for aggName _); [contradiction | reflexivity]. }
      destruct (nested_filter_clause nestedFilterFields o _ _ _ Hnd Ho Hmap Hin)
        as (before & after & -> & Hrest).
      exists before, after. split; [|exact Hrest].
      destruct before; reflexivity.
    + intros clauses el Hsome Hel.
      assert (Hclauses : clauses = nested_filter nestedFilterFields o).
      { destruct (nested_filter nestedFilterFields o); congruence. }
      subst clauses.
      destruct (nested_filter_origin nestedFilterFields o el Hel)
        as (aggName & fieldName & values & Ho & Hmap & Hin & ->).
      rewrite Hown in Ho.
      exists aggName, fieldName.
      destruct (values_for aggName (selections (filters st))) eqn:Hv;
        simpl in Ho; [discriminate|]. injection Ho as <-.
      repeat split; auto. discriminate.
    + intros Hnone.
      destruct (nested_filter nestedFilterFields o) as [|el l] eqn:Hf; [reflexivity|].
      exfalso.
      destruct (nested_filter_origin nestedFilterFields o el)
        as (aggName & fieldName & values & Ho & Hmap & Hin & _).
      { rewrite Hf. now left. }
      rewrite Hown, (Hnone _ _ Hmap Hin) in Ho. discriminate.
Qed.

(** When a nested facet [F] has selected values, the entry of [F] in
    [aggs] leaves the clause of [F] out of its filter, and the entry of every
    other configured facet [G] that is nested as well holds it. *)
Lemma aggregation_self_exclusion st body F fieldF :
  serialize listFilterFields nestedFilterFields this st = Normal body ->
  Obj.own F aggFieldsMapping = Some fieldF ->
  In fieldF nestedFilterFields ->
  values_for F (selections (filters st)) <> [] ->
  (exists kept,
     path ["aggs"; first_segment F] body =
     Some (JObj (nested_aggregation (Str.split "." F) fieldF ++
                 [("filter", wrapping_filter kept)])) /\
     ~ In (nested_clause fieldF (strings (values_for F (selections (filters st)))))
          kept) /\
  (forall G fieldG,
     G <> F ->
     Obj.own G aggFieldsMapping = Some fieldG ->
     In fieldG nestedFilterFields ->
     exists kept,
       path ["aggs"; first_segment G] body =
       Some (JObj (nested_aggregation (Str.split "." G) fieldG ++
                   [("filter", wrapping_filter kept)])) /\
       In (nested_clause fieldF (strings (values_for F (selections (filters st)))))
          kept).
Proof.
  intros Hser HmapF HinF Hsel.
  destruct (serialize_inv _ _ _ st body Hser) as [[Hnil ->]|(o & Hne & Hget & ->)].
  { rewrite Hnil in Hsel. now destruct Hsel. }
  destruct (getFilters_inv _ _ Hget) as [[Hnd _] Hown].
  assert (Ho : Obj.own F o = Some (values_for F (selections (filters st)))).
  { rewrite Hown. destruct (values_for F _); [contradiction | reflexivity]. }
  set (clauseF := nested_clause fieldF (strings (values_for F (selections (filters st))))).
  set (filter := nested_filter nestedFilterFields o).
  assert (Hclause : In clauseF filter).
  { destruct (nested_filter_clause nestedFilterFields o _ _ _ Hnd Ho HmapF HinF)
      as (before & after & Hsplit & _).
    unfold filter. rewrite Hsplit. apply in_or_app. right. now left. }
  assert (Hentry : forall G fieldG,
    Obj.own G aggFieldsMapping = Some fieldG -> In fieldG nestedFilterFields ->
    path ["aggs"; first_segment G]
      (assemble listFilterFields nestedFilterFields this st (Some o)) =
    Some (JObj (nested_aggregation (Str.split "." G) fieldG ++
                [("filter",
                  wrapping_filter
                    (List.filter
                       (fun el => negb (Str.startsWith (nested_path el) (first_segment G)))
                       filter))]))).
  { intros G fieldG HmapG HinG. unfold path. rewrite assemble_aggs.
    unfold aggregations. cbv zeta. unfold field. simpl snd. fold filter.
    rewrite (nested_aggregation_entry filter _ G fieldG HmapG HinG).
    unfold aggregation_filter. destruct filter; [destruct Hclause | reflexivity]. }
  split.
  - eexists. split; [apply Hentry; assumption|].
    rewrite filter_In. intros [_ Hkept]. unfold clauseF in Hkept.
    rewrite nested_path_clause, (own_field_is_prefix F fieldF HmapF) in Hkept.
    discriminate.
  - intros G fieldG Hne' HmapG HinG.
    eexists. split; [apply Hentry; assumption|].
    rewrite filter_In. split; [exact Hclause|]. unfold clauseF.
    rewrite nested_path_clause.
    rewrite (other_field_is_no_prefix F fieldF G fieldG HmapF HmapG); auto.
Qed.



(** C5: every facet with selected values whose field is a nested one has
    exactly one clause
    [{nested: {path, query: {bool: {must: [{terms: {path.token: values}}]}}}}]
    in [post_filter.bool.filter], on its field as path and on its selected
    values; every element of that list is the clause of such a facet; and
    [post_filter.bool] has no [filter] key when no nested facet is
    selected. *)
Theorem nested_facet_post_filter st body :
  serialize listFilterFields nestedFilterFields this st = Normal body ->
  (forall aggName fieldName,
     Obj.own aggName aggFieldsMapping = Some fieldName ->
     In fieldName nestedFilterFields ->
     values_for aggName (selections (filters st)) <> [] ->
     exists before after,
       path ["post_filter"; "bool"; "filter"] body =
       Some (JArr
               (before ++
                JObj [("nested",
                       JObj [("path", JStr fieldName);
                             ("query",
                              JObj [("bool",
                                     JObj [("must",
                                            JArr [JObj [("terms",
                                                         JObj [((fieldName ++ ".token")%string,
                                                                JArr (map JStr
                                                                        (values_for aggName
                                                                           (selections (filters st)))))])]])])])])] ::
                after)) /\
       forall el values, In el (before ++ after) ->
                         el <> nested_query fieldName values) /\
  (forall clauses el,
     path ["post_filter"; "bool"; "filter"] body = Some (JArr clauses) ->
     In el clauses ->
     exists aggName fieldName,
       Obj.own aggName aggFieldsMapping = Some fieldName /\
       In fieldName nestedFilterFields /\
       values_for aggName (selections (filters st)) <> [] /\
       el = nested_query fieldName (values_for aggName (selections (filters st)))) /\
  ((forall aggName fieldName,
      Obj.own aggName aggFieldsMapping = Some fieldName ->
      In fieldName nestedFilterFields ->
      values_for aggName (selections (filters st)) = []) ->
   path ["post_filter"; "bool"; "filter"] body = None).
Proof.
  intros Hser.
  destruct (nested_clauses_in_post_filter st body Hser) as (Hone & Hall & Hnone).
  split; [|split; [|exact Hnone]].
  - intros aggName fieldName Hmap Hin Hsel.
    destruct (Hone aggName fieldName Hmap Hin Hsel) as (before & after & Hpath & Hrest).
    exists before, after. split; [exact Hpath|].
    intros el values Hel ->. now apply (Hrest _ Hel).
  - intros clauses el Hpath Hel.
    destruct (Hall clauses el Hpath Hel) as (aggName & fieldName & H1 & H2 & H3 & ->).
    exists aggName, fieldName. now repeat split.
Qed.


End Aggregations.

(** Where every clause added to [terms] comes from: a selected name that is
    configured and whose field is a list field. *)
Lemma additionalterms_origin listFilterFields o el :
  In el (additionalterms listFilterFields o) ->
  exists aggName fieldName,
    In aggName (Obj.keys o) /\
    Obj.own aggName aggFieldsMapping = Some fieldName /\
    In fieldName listFilterFields /\
    el = JObj [("terms", JObj [(fieldName, values_of aggName o)])].
Proof.
  unfold additionalterms. cbv zeta.
  rewrite (fold_left_push
             (fun aggName => includes listFilterFields (Obj.own aggName aggFieldsMapping))
             (fun aggName =>
                JObj [("terms",
                       JObj [(property_key (Obj.own aggName aggFieldsMapping),
                              values_of aggName o)])])
             (Obj.keys o) []).
  rewrite app_nil_l, in_flat_map. intros (aggName & Hkey & Hel).
  destruct (includes listFilterFields (Obj.own aggName aggFieldsMapping)) eqn:Hinc;
    [|destruct Hel].
  destruct Hel as [<-|[]].
  destruct (Obj.own aggName aggFieldsMapping) as [f|] eqn:Hf; [|discriminate].
  exists aggName, f. repeat split; auto. now apply includes_In.
Qed.

(** ** Instances *)

(** C8 at page 3 and size 10. *)
Lemma size_and_from_witness :
  serialize [] all_nested sample_serializer (state_of "" 3 10 []) =
  Normal (assemble [] all_nested sample_serializer (state_of "" 3 10 []) None) /\
  (0 < 10)%Z /\ (0 < 3)%Z /\ (3 - 1 <= 2 ^ 53)%Z /\ ((3 - 1) * 10 <= 2 ^ 53)%Z /\
  field "size" (assemble [] all_nested sample_serializer (state_of "" 3 10 []) None) =
  Some (JNum 10) /\
  field "from" (assemble [] all_nested sample_serializer (state_of "" 3 10 []) None) =
  Some (JNum 20).
Proof.
  assert (H1 : (0 < 10)%Z) by reflexivity.
  assert (H2 : (0 < 3)%Z) by reflexivity.
  assert (H3 : (3 - 1 <= 2 ^ 53)%Z) by discriminate.
  assert (H4 : ((3 - 1) * 10 <= 2 ^ 53)%Z) by discriminate.
  split; [reflexivity|]. repeat (split; [assumption|]).
  destruct (size_and_from [] all_nested sample_serializer (state_of "" 3 10 []) _ eq_refl)
    as (_ & Hsize & _ & Hfrom & _).
  split; [exact (Hsize H1) | exact (Hfrom H2 H3 H4)].
Defined.

(** C10 at the empty query string without filters. *)
Lemma post_filter_and_aggs_always_witness :
  serialize [] all_nested sample_serializer (state_of "" 1 10 []) =
  Normal (assemble [] all_nested sample_serializer (state_of "" 1 10 []) None) /\
  (exists rest,
     path ["post_filter"; "bool"; "must"]
       (assemble [] all_nested sample_serializer (state_of "" 1 10 []) None) =
     Some (JArr (JObj [("terms", JObj [("portal_type", strings ["Manual"])])] ::
                 JObj [("terms", JObj [("review_state", strings ["published"])])] ::
                 rest))) /\
  (exists aggs,
     field "aggs" (assemble [] all_nested sample_serializer (state_of "" 1 10 []) None) =
     Some (JObj aggs)).
Proof.
  split; [reflexivity|].
  exact (post_filter_and_aggs_always [] all_nested sample_serializer
           (state_of "" 1 10 []) _ eq_refl).
Defined.

(** C8 fails in exact arithmetic at page 2^53 and size 3: the request
    starts from the double next to [(2^53 - 1) * 3]. *)
Lemma from_is_rounded_counterexample :
  ((9007199254740992 - 1) * 3 = 27021597764222973)%Z /\
  exists body,
    serialize [] all_nested sample_serializer
      (state_of "" 9007199254740992 3 []) = Normal body /\
    field "from" body = Some (JNum 27021597764222972) /\
    field "from" body <> Some (JNum ((9007199254740992 - 1) * 3)).
Proof.
  split; [reflexivity|]. eexists. split; [reflexivity|].
  split; [vm_compute; reflexivity | vm_compute; discriminate].
Qed.

(** C3 at the empty query string. *)
Lemma query_and_highlight_keys_witness :
  serialize [] all_nested sample_serializer (state_of "" 1 10 []) =
  Normal (assemble [] all_nested sample_serializer (state_of "" 1 10 []) None) /\
  field "query" (assemble [] all_nested sample_serializer (state_of "" 1 10 []) None) = None /\
  field "highlight" (assemble [] all_nested sample_serializer (state_of "" 1 10 []) None) = None.
Proof.
  split; [reflexivity|].
  destruct (query_and_highlight_keys [] all_nested sample_serializer
              (state_of "" 1 10 []) _ eq_refl) as (Hempty & _).
  apply Hempty. reflexivity.
Defined.

(** C3 fails on a query string of three spaces: the request has [query]
    and [highlight]. *)
Lemma blank_query_counterexample :
  Str.trim "   " = "" /\
  exists body,
    serialize [] all_nested sample_serializer (state_of "   " 1 10 []) = Normal body /\
    field "query" body =
    Some (JObj [("bool", JObj [("should", JArr []); ("must", JArr []);
                               ("must_not", JArr [])])]) /\
    field "highlight" body = Some highlight.
Proof.
  split; [reflexivity|]. eexists. split; [reflexivity|]. split; reflexivity.
Qed.

(** C2 at the query string [foo]. *)
Lemma bool_query_keys_witness :
  serialize [] all_nested sample_serializer (state_of "foo" 1 10 []) =
  Normal (assemble [] all_nested sample_serializer (state_of "foo" 1 10 []) None) /\
  queryString (state_of "foo" 1 10 []) <> "" /\
  path ["query"; "bool"]
    (assemble [] all_nested sample_serializer (state_of "foo" 1 10 []) None) =
  Some (JObj [("should",
               JArr [JObj [("query_string",
                            JObj [("query", JStr "foo foo~");
                                  ("fields",
                                   JArr [JStr "title^2"; JStr "description"])])]]);
              ("must", JArr []);
              ("must_not", JArr [])]).
Proof.
  assert (Hq : queryString (state_of "foo" 1 10 []) <> "") by discriminate.
  split; [reflexivity|]. split; [exact Hq|].
  exact (proj1 (bool_query_keys [] all_nested sample_serializer
                  (state_of "foo" 1 10 []) _ eq_refl Hq)).
Defined.

(** C2 fails on the query string [foo]: nothing is required and nothing
    excluded, and still [must] and [must_not] are keys, of empty arrays. *)
Lemma empty_clause_lists_counterexample :
  qs_tailored_must_notexact (tokenize "foo") = [] /\
  qs_tailored_must_exact (tokenize "foo") = [] /\
  qs_tailored_mustNot_exact (tokenize "foo") = [] /\
  exists body,
    serialize [] all_nested sample_serializer (state_of "foo" 1 10 []) = Normal body /\
    path ["query"; "bool"; "must"] body = Some (JArr []) /\
    path ["query"; "bool"; "must_not"] body = Some (JArr []).
Proof.
  repeat (split; [reflexivity|]). eexists. repeat split; reflexivity.
Qed.

(** C5 at one selected value of a nested facet. *)
Lemma nested_facet_post_filter_witness :
  serialize [] all_nested sample_serializer
    (state_of "" 1 10 [Chain kompass "BEW" None]) =
  Normal (assemble [] all_nested sample_serializer
            (state_of "" 1 10 [Chain kompass "BEW" None])
            (Some [(kompass, ["BEW"])])) /\
  Obj.own kompass aggFieldsMapping = Some "kompasscomponent" /\
  In "kompasscomponent" all_nested /\
  values_for kompass (selections [Chain kompass "BEW" None]) <> [] /\
  exists before after,
    path ["post_filter"; "bool"; "filter"]
      (assemble [] all_nested sample_serializer
         (state_of "" 1 10 [Chain kompass "BEW" None])
         (Some [(kompass, ["BEW"])])) =
    Some (JArr
            (before ++
             JObj [("nested",
                    JObj [("path", JStr "kompasscomponent");
                          ("query",
                           JObj [("bool",
                                  JObj [("must",
                                         JArr [JObj [("terms",
                                                      JObj [("kompasscomponent.token",
                                                             JArr [JStr "BEW"])])]])])])])] ::
             after)) /\
    forall el values, In el (before ++ after) ->
                      el <> nested_query "kompasscomponent" values.
Proof.
  assert (Hown : Obj.own kompass aggFieldsMapping = Some "kompasscomponent")
    by reflexivity.
  assert (Hin : In "kompasscomponent" all_nested) by (simpl; auto).
  assert (Hsel : values_for kompass (selections [Chain kompass "BEW" None]) <> [])
    by discriminate.
  split; [reflexivity|]. split; [exact Hown|]. split; [exact Hin|].
  split; [exact Hsel|].
  destruct (nested_facet_post_filter [] all_nested sample_serializer
              (state_of "" 1 10 [Chain kompass "BEW" None]) _ eq_refl)
    as (Hclause & _).
  exact (Hclause kompass "kompasscomponent" Hown Hin Hsel).
Defined.

(** One selected value of a nested facet, seen from another nested
    facet. *)
Lemma aggregation_self_exclusion_witness :
  serialize [] all_nested sample_serializer
    (state_of "" 1 10 [Chain kompass "BEW" None]) =
  Normal (assemble [] all_nested sample_serializer
            (state_of "" 1 10 [Chain kompass "BEW" None])
            (Some [(kompass, ["BEW"])])) /\
  Obj.own kompass aggFieldsMapping = Some "kompasscomponent" /\
  In "kompasscomponent" all_nested /\
  values_for kompass (selections [Chain kompass "BEW" None]) <> [] /\
  exists kept,
    path ["aggs"; "targetaudience_agg"]
      (assemble [] all_nested sample_serializer
         (state_of "" 1 10 [Chain kompass "BEW" None])
         (Some [(kompass, ["BEW"])])) =
    Some (JObj (nested_aggregation (Str.split "." audience) "targetaudience" ++
                [("filter", wrapping_filter kept)])) /\
    In (nested_clause "kompasscomponent" (strings ["BEW"])) kept.
Proof.
  split; [reflexivity|]. split; [reflexivity|].
  split; [simpl; auto|]. split; [discriminate|].
  assert (Hown : Obj.own kompass aggFieldsMapping = Some "kompasscomponent")
    by reflexivity.
  assert (Hin : In "kompasscomponent" all_nested) by (simpl; auto).
  assert (Hsel : values_for kompass (selections [Chain kompass "BEW" None]) <> [])
    by discriminate.
  destruct (aggregation_self_exclusion [] all_nested sample_serializer
              (state_of "" 1 10 [Chain kompass "BEW" None]) _
              kompass "kompasscomponent" eq_refl Hown Hin Hsel)
    as (_ & Hother).
  apply (Hother audience "targetaudience").
  - discriminate.
  - reflexivity.
  - simpl. auto.
Defined.

(** A configured facet that is a list filter only: with [targetaudience]
    among the list fields and [kompasscomponent] the one nested field, the
    entry built for the target audience is a bare [terms] aggregation; no
    filter wraps it. *)
Lemma list_facet_entry :
  exists body,
    serialize ["targetaudience"] ["kompasscomponent"] sample_serializer
      (state_of "" 1 10 [Chain kompass "BEW" None]) = Normal body /\
    path ["post_filter"; "bool"; "filter"] body =
    Some (JArr [nested_clause "kompasscomponent" (strings ["BEW"])]) /\
    field "aggs" body =
    Some (JObj [(audience, JObj [("terms", JObj [("field", JStr "targetaudience")])]);
                ("kompasscomponent_agg",
                 JObj (nested_aggregation (Str.split "." kompass) "kompasscomponent" ++
                       [("filter", wrapping_filter [])]))]) /\
    path ["aggs"; audience; "filter"] body = None.
Proof.
  eexists. split; [vm_compute; reflexivity|].
  split; [vm_compute; reflexivity|]. split; vm_compute; reflexivity.
Qed.

(** ** More on the flattener *)

Lemma bind_Normal {A : Type} (c : completion A) : (x <- c ;; Normal x) = c.
Proof. destruct c; reflexivity. Qed.

Lemma forEach_app fs1 fs2 o :
  forEach_getChildFilter (fs1 ++ fs2) o =
  (o' <- forEach_getChildFilter fs1 o ;; forEach_getChildFilter fs2 o').
Proof.
  revert o. induction fs1 as [|c fs1 IH]; intros o; simpl; [reflexivity|].
  destruct (getChildFilter c o) as [o1|]; simpl; [apply IH | reflexivity].
Qed.

Lemma getChildFilter_as_forEach c :
  forall o,
  getChildFilter c o = forEach_getChildFilter (map leaf_chain (chain_pairs c)) o.
Proof.
  induction c as [a v | a v c IH] using FilterChain_induction; intros o;
    cbn [chain_pairs map forEach_getChildFilter]; unfold leaf_chain at 1;
    cbn [fst snd]; rewrite !getChildFilter_unfold;
    destruct (record a v o) as [o1|]; simpl; try reflexivity.
  apply IH.
Qed.

Lemma values_for_nil n ps : values_for n ps = [] <-> ~ In n (map fst ps).
Proof.
  unfold values_for. induction ps as [|[a v] ps IH]; simpl.
  - tauto.
  - destruct (String.eqb a n) eqn:E; simpl.
    + apply String.eqb_eq in E. split; [discriminate | intros H; exfalso; auto].
    + apply String.eqb_neq in E. rewrite IH. tauto.
Qed.

(** X1: on facet names that are not inherited from [Object.prototype] the
    flattener returns an object without double keys whose keys are the names
    that occur, at any depth, and in which every such name holds its values
    in the order they are visited, duplicates kept. *)
Theorem getFilters_records_selections filters :
  Forall (fun p => Obj.inherited (fst p) = false) (selections filters) ->
  exists o,
    getFilters filters = Normal o /\
    NoDup (Obj.keys o) /\
    (forall n, In n (Obj.keys o) <-> In n (map fst (selections filters))) /\
    (forall n, In n (map fst (selections filters)) ->
               Obj.own n o = Some (values_for n (selections filters))).
Proof.
  intros Hnames.
  destruct (getFilters_normal filters Hnames) as (o & Hget & [Hnd _] & Hown).
  exists o. split; [exact Hget|]. split; [exact Hnd|].
  assert (Hsome : forall n, In n (map fst (selections filters)) ->
                            Obj.own n o = Some (values_for n (selections filters))).
  { intros n Hin. rewrite Hown.
    destruct (values_for n (selections filters)) eqn:E; [|reflexivity].
    apply values_for_nil in E. contradiction. }
  split; [|exact Hsome].
  intros n. rewrite <- ObjFacts.own_In_keys. split.
  - intros Hn. rewrite Hown in Hn.
    destruct (values_for n (selections filters)) eqn:E; [now destruct Hn|].
    destruct (in_dec string_dec n (map fst (selections filters))) as [Hin|Hout];
      [exact Hin|].
    apply values_for_nil in Hout. congruence.
  - intros Hin. rewrite (Hsome n Hin). discriminate.
Qed.

Lemma getFilters_records_selections_witness :
  Forall (fun p => Obj.inherited (fst p) = false)
    (selections [Chain "type" "A" None;
                 Chain "type" "B" (Some (Chain "sub" "X" None))]) /\
  exists o,
    getFilters [Chain "type" "A" None;
                Chain "type" "B" (Some (Chain "sub" "X" None))] = Normal o /\
    NoDup (Obj.keys o) /\
    (forall n, In n (Obj.keys o) <->
               In n (map fst (selections
                 [Chain "type" "A" None;
                  Chain "type" "B" (Some (Chain "sub" "X" None))]))) /\
    (forall n, In n (map fst (selections
                 [Chain "type" "A" None;
                  Chain "type" "B" (Some (Chain "sub" "X" None))])) ->
               Obj.own n o =
               Some (values_for n (selections
                 [Chain "type" "A" None;
                  Chain "type" "B" (Some (Chain "sub" "X" None))]))).
Proof.
  assert (H : Forall (fun p => Obj.inherited (fst p) = false)
                (selections [Chain "type" "A" None;
                             Chain "type" "B" (Some (Chain "sub" "X" None))])).
  { repeat constructor. }
  split; [exact H|]. exact (getFilters_records_selections _ H).
Defined.

(** X2: the flattener throws exactly when some facet name of the filters,
    at any depth, is a name every object inherits. *)
Theorem getFilters_throws_iff filters :
  getFilters filters = Throw <->
  Exists (fun p => Obj.inherited (fst p) = true) (selections filters).
Proof.
  split.
  - intros Hthrow.
    destruct (existsb (fun p => Obj.inherited (fst p)) (selections filters)) eqn:E.
    + apply existsb_exists in E as (p & Hp & Hinh). apply Exists_exists. now exists p.
    + assert (Hall : Forall (fun p => Obj.inherited (fst p) = false)
                       (selections filters)).
      { apply Forall_forall. intros p Hp.
        destruct (Obj.inherited (fst p)) eqn:E'; [|reflexivity].
        assert (existsb (fun p => Obj.inherited (fst p)) (selections filters) = true)
          by (apply existsb_exists; now exists p).
        congruence. }
      destruct (getFilters_normal filters Hall) as (o & Hget & _). congruence.
  - intros Hex. apply forEach_throws; [apply flat_empty | exact Hex].
Qed.

(** X3: a child chain counts like a chain of its own behind its parent:
    the flattener gives the same result, or throws alike, on the filters and
    on their pairs taken one by one as chains without children. *)
Theorem getFilters_nesting_is_sequencing filters :
  getFilters filters = getFilters (map leaf_chain (selections filters)).
Proof.
  unfold getFilters. generalize (@nil (string * list string)) as o.
  induction filters as [|c fs IH]; intros o; [reflexivity|].
  unfold selections. simpl flat_map. rewrite map_app, forEach_app.
  simpl forEach_getChildFilter. rewrite getChildFilter_as_forEach.
  destruct (forEach_getChildFilter (map leaf_chain (chain_pairs c)) o) as [o1|];
    simpl; [apply IH | reflexivity].
Qed.

(** ** More on the tokenizer *)

Lemma fragments_word word b :
  fragments (_make_fuzzy_and_enrich_with_word_parts word b) = S (fragments b).
Proof.
  unfold _make_fuzzy_and_enrich_with_word_parts.
  destruct (Str.startsWith "-" word); [|destruct (Str.startsWith "+" word)];
    [| destruct (Str.includes dquote word || Str.includes "*" word ||
                 Str.includes "?" word) |
       destruct (Str.includes "*" word || Str.includes "?" word);
       [|destruct (Str.includes dquote word)]];
    unfold fragments; cbn [qs_tailored_should_notexact qs_tailored_should_exact
                           qs_tailored_must_notexact qs_tailored_must_exact
                           qs_tailored_mustNot_exact];
    rewrite length_app; cbn [List.length]; lia.
Qed.

(** X4: the tokenizer neither loses nor doubles a word: the five lists
    hold together as many fragments as the query string has words. *)
Theorem tokenize_one_fragment_per_word queryString :
  fragments (tokenize queryString) = List.length (words_of queryString).
Proof.
  unfold tokenize.
  assert (H : forall ws b,
             fragments
               (fold_left
                  (fun b word =>
                     let word := _remove_orphan_leading_or_trailing_quotmarks word in
                     _make_fuzzy_and_enrich_with_word_parts word b) ws b) =
             (List.length ws + fragments b)%nat).
  { induction ws as [|w ws IH]; intros b; [reflexivity|].
    cbn [fold_left List.length]. rewrite IH. cbv zeta. rewrite fragments_word. lia. }
  rewrite H. unfold fragments, no_words. simpl. lia.
Qed.

Lemma split_without_separator sep s w :
  In w (Str.split sep s) -> Str.includes sep w = false.
Proof.
  revert w. induction s as [|a s IH]; intros w; simpl.
  - intros [<-|[]]. reflexivity.
  - destruct (Ascii.eqb a sep) eqn:E.
    + intros [<-|H]; [reflexivity | now apply IH].
    + destruct (Str.split sep s) as [|w0 ws] eqn:Hs.
      * intros [<-|[]]. simpl. now rewrite E.
      * intros [<-|H].
        -- simpl. rewrite E. apply IH. now left.
        -- apply IH. now right.
Qed.

(** X5: no word the tokenizer works on is empty, is a lone quotation mark
    or holds a space. *)
Theorem words_are_proper queryString word :
  In word (words_of queryString) ->
  word <> "" /\ word <> quot /\ Str.includes " " word = false.
Proof.
  unfold words_of. rewrite filter_In. intros [Hsplit Hkeep].
  apply andb_true_iff in Hkeep as [H1 H2].
  apply negb_true_iff in H1, H2.
  apply String.eqb_neq in H1, H2.
  repeat split; auto. eapply split_without_separator; eauto.
Qed.

Lemma words_are_proper_witness :
  In "b" (words_of " a  b ") /\
  "b" <> "" /\ "b" <> quot /\ Str.includes " " "b" = false.
Proof.
  assert (H : In "b" (words_of " a  b ")) by (vm_compute; auto).
  split; [exact H|]. exact (words_are_proper " a  b " "b" H).
Defined.

Lemma all_chars_impl (ok ok' : ascii -> bool) s :
  (forall a, ok a = true -> ok' a = true) ->
  all_chars ok s = true -> all_chars ok' s = true.
Proof.
  intros Himp. induction s as [|a s IH]; simpl; [reflexivity|].
  intros H. apply andb_true_iff in H as [Ha Hs].
  now rewrite (Himp a Ha), IH.
Qed.

Lemma all_chars_app ok s1 s2 :
  all_chars ok (s1 ++ s2)%string = all_chars ok s1 && all_chars ok s2.
Proof.
  induction s1 as [|a s1 IH]; simpl; [reflexivity|].
  now rewrite IH, andb_assoc.
Qed.

Lemma all_chars_excludes ok c s :
  (forall a, ok a = true -> a <> c) ->
  all_chars ok s = true -> Str.includes c s = false.
Proof.
  intros Hne. induction s as [|a s IH]; simpl; [reflexivity|].
  intros H. apply andb_true_iff in H as [Ha Hs].
  rewrite (IH Hs), orb_false_r. apply Ascii.eqb_neq. now apply Hne.
Qed.

Lemma plain_char_spec a :
  plain_char a = true ->
  Str.is_white_space a = false /\
  a <> "+"%char /\ a <> "-"%char /\ a <> "*"%char /\ a <> "?"%char /\
  a <> dquote /\ a <> " "%char.
Proof.
  unfold plain_char. intros H. apply andb_true_iff in H as [Hw Hs].
  apply negb_true_iff in Hw, Hs.
  change (Str.includes a ("+-*?" ++ quot)%string)
    with (Ascii.eqb "+" a || (Ascii.eqb "-" a || (Ascii.eqb "*" a ||
          (Ascii.eqb "?" a || (Ascii.eqb dquote a || false))))) in Hs.
  repeat (apply orb_false_iff in Hs as [? Hs]).
  repeat match goal with
         | H : Ascii.eqb _ _ = false |- _ => apply Ascii.eqb_neq in H
         end.
  repeat split; auto; try congruence.
  intros ->. vm_compute in Hw. discriminate Hw.
Qed.

Lemma plain_excludes w c :
  all_chars plain_char w = true ->
  In c ["+"; "-"; "*"; "?"; dquote; " "]%char ->
  Str.includes c w = false.
Proof.
  intros Hw Hc. apply (all_chars_excludes plain_char); [|exact Hw].
  intros a Ha. destruct (plain_char_spec a Ha) as (_ & ? & ? & ? & ? & ? & ?).
  simpl in Hc. intuition congruence.
Qed.

Lemma includes_app c s1 s2 :
  Str.includes c (s1 ++ s2)%string = Str.includes c s1 || Str.includes c s2.
Proof.
  induction s1 as [|a s1 IH]; simpl; [reflexivity|].
  now rewrite IH, orb_assoc.
Qed.

Lemma dropEnd_keep strip s :
  all_chars (fun a => negb (strip a)) s = true -> Str.dropEnd strip s = s.
Proof.
  induction s as [|a s IH]; simpl; [reflexivity|].
  intros H. apply andb_true_iff in H as [Ha Hs]. apply negb_true_iff in Ha.
  rewrite (IH Hs). destruct s; [now rewrite Ha | reflexivity].
Qed.

Lemma dropEnd_snoc strip s a :
  strip a = false ->
  Str.dropEnd strip (s ++ String a "")%string = (s ++ String a "")%string.
Proof.
  intros Ha. induction s as [|b s IH]; simpl.
  - now rewrite Ha.
  - rewrite IH. destruct s; reflexivity.
Qed.

Lemma lodash_trim_keep s chars :
  all_chars (fun a => negb (Str.includes a chars)) s = true ->
  Str.lodash_trim s chars = s.
Proof.
  intros H. unfold Str.lodash_trim.
  assert (Hstart : Str.dropStart (fun a => Str.includes a chars) s = s).
  { destruct s as [|a s]; [reflexivity|]. simpl in *.
    apply andb_true_iff in H as [Ha _]. apply negb_true_iff in Ha. now rewrite Ha. }
  rewrite Hstart. now apply dropEnd_keep.
Qed.

Lemma snoc_decomposition ok w :
  all_chars ok w = true -> w <> "" ->
  exists s a, w = (s ++ String a "")%string /\ ok a = true.
Proof.
  induction w as [|b w IH]; [congruence|]. simpl. intros H _.
  apply andb_true_iff in H as [Hb Hw].
  destruct w as [|c w].
  - exists "", b. now split.
  - destruct (IH Hw) as (s & a & E & Ha); [discriminate|].
    exists (String b s), a. rewrite E. now split.
Qed.

Lemma endsWith_without c s :
  Str.includes c s = false -> Str.endsWith (String c "") s = false.
Proof.
  induction s as [|a s IH]; [reflexivity|]. simpl. intros H.
  apply orb_false_iff in H as [Ha Hs]. rewrite (IH Hs), orb_false_r.
  rewrite Ascii.eqb_sym, Ha. reflexivity.
Qed.

Lemma endsWith_snoc c s : Str.endsWith (String c "") (s ++ String c "")%string = true.
Proof.
  induction s as [|a s IH]; simpl.
  - now rewrite Ascii.eqb_refl.
  - rewrite IH. apply orb_true_r.
Qed.

Lemma startsWith_other c a s :
  a <> c -> Str.startsWith (String c "") (String a s) = false.
Proof.
  intros H. unfold Str.startsWith. simpl.
  destruct (ascii_dec c a); [congruence | reflexivity].
Qed.

Lemma remove_first_snoc c s :
  Str.includes c s = false ->
  Str.remove_first c (s ++ String c "")%string = s.
Proof.
  induction s as [|a s IH]; simpl.
  - now rewrite Ascii.eqb_refl.
  - intros H. apply orb_false_iff in H as [Ha Hs]. now rewrite Ha, IH.
Qed.

Lemma split_whole sep w :
  Str.includes sep w = false -> Str.split sep w = [w].
Proof.
  induction w as [|a w IH]; simpl; [reflexivity|].
  intros H. apply orb_false_iff in H as [Ha Hw]. now rewrite Ha, IH.
Qed.

Lemma split_at_separator sep w rest :
  Str.includes sep w = false ->
  Str.split sep (w ++ String sep rest)%string = w :: Str.split sep rest.
Proof.
  induction w as [|a w IH]; simpl.
  - now rewrite Ascii.eqb_refl.
  - intros H. apply orb_false_iff in H as [Ha Hw]. now rewrite Ha, IH.
Qed.

Lemma join_cons w w2 ws :
  Str.join " " (w :: w2 :: ws) = (w ++ String " " (Str.join " " (w2 :: ws)))%string.
Proof. reflexivity. Qed.

Lemma append_assoc (s1 s2 s3 : string) :
  ((s1 ++ s2) ++ s3 = s1 ++ (s2 ++ s3))%string.
Proof. induction s1 as [|a s1 IH]; simpl; [reflexivity | now rewrite IH]. Qed.

Lemma append_empty (s : string) : (s ++ "")%string = s.
Proof. induction s as [|a s IH]; simpl; [reflexivity | now rewrite IH]. Qed.

(** Joining words at spaces and splitting again gives the words back; what
    is appended behind the join stays with the last word. *)
Lemma split_join ws tail :
  ws <> [] ->
  Forall (fun w => Str.includes " " w = false) ws ->
  Str.includes " " tail = false ->
  Str.split " " (Str.join " " ws ++ tail)%string =
  map_last (fun w => (w ++ tail)%string) ws.
Proof.
  intros Hne Hws Htail. induction ws as [|w ws IH]; [congruence|].
  inversion Hws as [|? ? Hw Hrest]; subst.
  destruct ws as [|w2 ws].
  - simpl. apply split_whole. now rewrite includes_app, Hw, Htail.
  - rewrite join_cons, append_assoc.
    change (String " " (Str.join " " (w2 :: ws)) ++ tail)%string
      with (String " " (Str.join " " (w2 :: ws) ++ tail))%string.
    rewrite split_at_separator by exact Hw.
    rewrite IH; [reflexivity | discriminate | exact Hrest].
Qed.

Lemma map_last_id {A : Type} (f : A -> A) l :
  (forall x, f x = x) -> map_last f l = l.
Proof.
  intros Hf. induction l as [|x l IH]; [reflexivity|].
  simpl. destruct l; [now rewrite Hf | now rewrite IH].
Qed.

Lemma filter_all {A : Type} (f : A -> bool) l :
  Forall (fun x => f x = true) l -> List.filter f l = l.
Proof.
  induction 1 as [|x l Hx _ IH]; simpl; [reflexivity | now rewrite Hx, IH].
Qed.

Lemma plain_parts w :
  plain w = true -> w <> "" /\ all_chars plain_char w = true.
Proof.
  unfold plain. intros H. apply andb_true_iff in H as [Hne Hall].
  split; [|exact Hall]. intros ->. discriminate Hne.
Qed.

Lemma unsigned_keeps_signs_off (c : ascii) s :
  In c ["+"; "-"]%char ->
  all_chars (fun a => plain_char a || Ascii.eqb a dquote) s = true ->
  all_chars (fun a => negb (Str.includes a (String c ""))) s = true.
Proof.
  intros Hc. apply all_chars_impl. intros a Ha. simpl.
  rewrite orb_false_r. apply negb_true_iff, Ascii.eqb_neq.
  apply orb_true_iff in Ha as [Ha|Ha].
  - destruct (plain_char_spec a Ha) as (_ & ? & ? & _).
    simpl in Hc. intuition congruence.
  - apply Ascii.eqb_eq in Ha. subst a. simpl in Hc.
    destruct Hc as [<-|[<-|[]]]; discriminate.
Qed.

(** A word of plain code units and quotation marks has no sign to lose. *)
Lemma unsigned_word s :
  all_chars (fun a => plain_char a || Ascii.eqb a dquote) s = true ->
  Str.lodash_trim (Str.lodash_trim s "+") "-" = s.
Proof.
  intros H.
  rewrite (lodash_trim_keep s "+")
    by (apply unsigned_keeps_signs_off; [simpl; auto | exact H]).
  apply lodash_trim_keep, unsigned_keeps_signs_off; [simpl; auto | exact H].
Qed.

Lemma plain_is_unsigned s :
  all_chars plain_char s = true ->
  all_chars (fun a => plain_char a || Ascii.eqb a dquote) s = true.
Proof. apply all_chars_impl. intros a ->. reflexivity. Qed.

Lemma orphan_plain w :
  all_chars plain_char w = true ->
  _remove_orphan_leading_or_trailing_quotmarks w = w.
Proof.
  intros H. unfold _remove_orphan_leading_or_trailing_quotmarks. cbv zeta.
  rewrite (unsigned_word w (plain_is_unsigned w H)).
  assert (Hq : Str.includes dquote w = false)
    by (apply plain_excludes; [exact H | simpl; auto 10]).
  unfold quot. rewrite (endsWith_without dquote w Hq).
  destruct w as [|a w]; [reflexivity|].
  rewrite startsWith_other; [reflexivity|].
  simpl in Hq. apply orb_false_iff in Hq as [Ha _]. now apply Ascii.eqb_neq.
Qed.

Lemma orphan_leading w :
  plain w = true ->
  _remove_orphan_leading_or_trailing_quotmarks (quot ++ w)%string = w.
Proof.
  intros Hp. destruct (plain_parts w Hp) as [Hne H].
  unfold _remove_orphan_leading_or_trailing_quotmarks. cbv zeta.
  assert (Hu : all_chars (fun a => plain_char a || Ascii.eqb a dquote)
                 (quot ++ w)%string = true).
  { rewrite all_chars_app, (plain_is_unsigned w H). reflexivity. }
  rewrite (unsigned_word _ Hu).
  assert (Hq : Str.includes dquote w = false)
    by (apply plain_excludes; [exact H | simpl; auto 10]).
  assert (Hend : Str.endsWith quot (quot ++ w)%string = false).
  { unfold quot. simpl. rewrite (endsWith_without dquote w Hq), orb_false_r.
    destruct w; [congruence | reflexivity]. }
  rewrite Hend. unfold quot at 1. simpl.
  destruct (ascii_dec dquote dquote); [|congruence].
  destruct w; reflexivity.
Qed.

Lemma orphan_trailing w :
  plain w = true ->
  _remove_orphan_leading_or_trailing_quotmarks (w ++ quot)%string = w.
Proof.
  intros Hp. destruct (plain_parts w Hp) as [Hne H].
  unfold _remove_orphan_leading_or_trailing_quotmarks. cbv zeta.
  assert (Hu : all_chars (fun a => plain_char a || Ascii.eqb a dquote)
                 (w ++ quot)%string = true).
  { rewrite all_chars_app, (plain_is_unsigned w H). reflexivity. }
  rewrite (unsigned_word _ Hu).
  assert (Hq : Str.includes dquote w = false)
    by (apply plain_excludes; [exact H | simpl; auto 10]).
  unfold quot. rewrite endsWith_snoc, (remove_first_snoc dquote w Hq).
  destruct w as [|a w]; [congruence|].
  simpl append. rewrite startsWith_other; [reflexivity|].
  simpl in Hq. apply orb_false_iff in Hq as [Ha _]. now apply Ascii.eqb_neq.
Qed.

(** A plain word is searched as itself and as its fuzzy form. *)
Lemma step_plain w b :
  plain w = true ->
  _make_fuzzy_and_enrich_with_word_parts w b =
  mkBuckets (qs_tailored_should_notexact b ++ [_maybeFuzzy w])
    (qs_tailored_should_exact b) (qs_tailored_must_notexact b)
    (qs_tailored_must_exact b) (qs_tailored_mustNot_exact b).
Proof.
  intros Hp. destruct (plain_parts w Hp) as [Hne H].
  assert (Hex : forall c, In c ["+"; "-"; "*"; "?"; dquote; " "]%char ->
                          Str.includes c w = false)
    by (intros c; now apply plain_excludes).
  unfold _make_fuzzy_and_enrich_with_word_parts.
  destruct w as [|a w]; [congruence|].
  assert (Ha : forall c, In c ["+"; "-"; "*"; "?"; dquote; " "]%char -> a <> c).
  { intros c Hc E. specialize (Hex c Hc). simpl in Hex.
    apply orb_false_iff in Hex as [Hx _]. apply Ascii.eqb_neq in Hx. congruence. }
  rewrite (startsWith_other "-" a w) by (apply Ha; simpl; auto).
  rewrite (startsWith_other "+" a w) by (apply Ha; simpl; auto).
  rewrite (Hex "*"%char), (Hex "?"%char), (Hex dquote) by (simpl; auto 10).
  rewrite (split_whole "-" (String a w)) by (apply Hex; simpl; auto).
  reflexivity.
Qed.

Lemma fold_plain ws :
  Forall (fun w => plain w = true) ws ->
  forall b,
  fold_left
    (fun b word =>
       let word := _remove_orphan_leading_or_trailing_quotmarks word in
       _make_fuzzy_and_enrich_with_word_parts word b) ws b =
  mkBuckets (qs_tailored_should_notexact b ++ map _maybeFuzzy ws)
    (qs_tailored_should_exact b) (qs_tailored_must_notexact b)
    (qs_tailored_must_exact b) (qs_tailored_mustNot_exact b).
Proof.
  induction 1 as [|w ws Hw _ IH]; intros b; simpl.
  - rewrite app_nil_r. now destruct b.
  - rewrite IH, (orphan_plain w) by (apply plain_parts, Hw).
    rewrite (step_plain w b Hw). simpl. now rewrite <- app_assoc.
Qed.

Lemma trim_keep a s z t :
  Str.is_white_space a = false -> Str.is_white_space z = false ->
  String a s = (t ++ String z "")%string ->
  Str.trim (String a s) = String a s.
Proof.
  intros Ha Hz E. unfold Str.trim. simpl Str.dropStart. rewrite Ha, E.
  now apply dropEnd_snoc.
Qed.

Lemma join_plain_ends w ws :
  Forall (fun w => plain w = true) (w :: ws) ->
  exists t z, Str.join " " (w :: ws) = (t ++ String z "")%string /\
              Str.is_white_space z = false.
Proof.
  revert w. induction ws as [|w2 ws IH]; intros w Hall;
    inversion Hall as [|? ? Hw Hrest]; subst.
  - destruct (plain_parts w Hw) as [Hne H].
    destruct (snoc_decomposition plain_char w H Hne) as (t & z & E & Hz).
    exists t, z. split; [exact E|]. apply (plain_char_spec z Hz).
  - destruct (IH w2 Hrest) as (t & z & E & Hz).
    exists (w ++ String " " t)%string, z. split; [|exact Hz].
    rewrite join_cons, E, append_assoc. reflexivity.
Qed.

Lemma join_plain_start w ws :
  plain w = true ->
  exists a s, Str.join " " (w :: ws) = String a s /\ plain_char a = true.
Proof.
  intros Hw. destruct (plain_parts w Hw) as [Hne H].
  destruct w as [|a w]; [congruence|]. simpl in H.
  apply andb_true_iff in H as [Ha _].
  destruct ws as [|w2 ws].
  - exists a, w. now split.
  - rewrite join_cons. simpl. eexists _, _. split; [reflexivity | exact Ha].
Qed.

Lemma plain_kept w :
  plain w = true -> negb (String.eqb w "") && negb (String.eqb w quot) = true.
Proof.
  intros Hw. destruct (plain_parts w Hw) as [Hne H].
  destruct w as [|a w]; [congruence|]. simpl in H.
  apply andb_true_iff in H as [Ha _].
  destruct (plain_char_spec a Ha) as (_ & _ & _ & _ & _ & Hq & _).
  apply Ascii.eqb_neq in Hq. unfold quot. simpl. now rewrite Hq.
Qed.

Lemma words_of_plain ws :
  Forall (fun w => plain w = true) ws -> words_of (Str.join " " ws) = ws.
Proof.
  intros Hall. destruct ws as [|w ws]; [reflexivity|].
  unfold words_of.
  assert (Hw : plain w = true) by (now inversion Hall).
  destruct (join_plain_start w ws Hw) as (a & s & E & Ha).
  destruct (join_plain_ends w ws Hall) as (t & z & E' & Hz).
  rewrite E. rewrite (trim_keep a s z t); [| apply (plain_char_spec a Ha) | exact Hz
                                           | now rewrite <- E].
  rewrite <- E, <- (append_empty (Str.join " " (w :: ws))).
  rewrite split_join; [| discriminate | | reflexivity].
  - rewrite map_last_id by apply append_empty.
    apply filter_all. eapply Forall_impl; [|exact Hall].
    intros x Hx. now apply plain_kept.
  - eapply Forall_impl; [|exact Hall]. intros x Hx.
    apply plain_excludes; [apply plain_parts, Hx | simpl; auto 10].
Qed.

Lemma tokenize_plain ws :
  Forall (fun w => plain w = true) ws ->
  tokenize (Str.join " " ws) = mkBuckets (map _maybeFuzzy ws) [] [] [] [].
Proof.
  intros Hall. unfold tokenize. rewrite (words_of_plain ws Hall).
  exact (fold_plain ws Hall no_words).
Qed.

(** X6: a query string of plain words joined by single spaces has every
    word searched as [word word~], in order, among the optional fuzzy
    fragments; nothing is required, nothing excluded, nothing exact. *)
Theorem tokenize_plain_words ws :
  Forall (fun w => plain w = true) ws ->
  tokenize (Str.join " " ws) =
  {| qs_tailored_should_notexact :=
       map (fun w => (w ++ " " ++ w ++ "~")%string) ws;
     qs_tailored_should_exact := [];
     qs_tailored_must_notexact := [];
     qs_tailored_must_exact := [];
     qs_tailored_mustNot_exact := [] |}.
Proof. exact (tokenize_plain ws). Qed.

Lemma tokenize_plain_words_witness :
  Forall (fun w => plain w = true) ["volto"; "search"] /\
  tokenize "volto search" =
  mkBuckets ["volto volto~"; "search search~"] [] [] [] [].
Proof.
  assert (H : Forall (fun w => plain w = true) ["volto"; "search"])
    by (repeat constructor).
  split; [exact H|]. exact (tokenize_plain_words ["volto"; "search"] H).
Defined.

Lemma fold_map_last {A B : Type} (step : B -> A -> B) (f : A -> A) l :
  (forall b x, In x l -> step b (f x) = step b x) ->
  forall b, fold_left step (map_last f l) b = fold_left step l b.
Proof.
  induction l as [|x l IH]; intros Hf b; [reflexivity|].
  destruct l as [|y l].
  - simpl. apply Hf. now left.
  - change (map_last f (x :: y :: l)) with (x :: map_last f (y :: l)).
    simpl fold_left at 1. rewrite IH; [reflexivity|].
    intros b' z Hz. apply Hf. now right.
Qed.

Lemma quoted_kept (keep : string -> bool) ws :
  keep = (fun word => negb (String.eqb word "") && negb (String.eqb word quot)) ->
  Forall (fun w => plain w = true) ws ->
  Forall (fun w => keep w = true) (map_last (fun w => (w ++ quot)%string) ws).
Proof.
  intros -> Hall. induction Hall as [|w ws Hw Hall IH]; [constructor|].
  destruct ws as [|w2 ws].
  - simpl. constructor; [|constructor].
    destruct (plain_parts w Hw) as [Hne _].
    destruct w as [|a w]; [congruence|]. simpl.
    destruct w; simpl; destruct (Ascii.eqb a dquote); reflexivity.
  - change (map_last (fun w => (w ++ quot)%string) (w :: w2 :: ws))
      with (w :: map_last (fun w => (w ++ quot)%string) (w2 :: ws)).
    constructor; [now apply plain_kept | exact IH].
Qed.

Lemma words_of_quoted w ws :
  plain w = true -> ws <> [] ->
  Forall (fun w => plain w = true) ws ->
  words_of (quot ++ Str.join " " (w :: ws) ++ quot)%string =
  (quot ++ w)%string :: map_last (fun x => (x ++ quot)%string) ws.
Proof.
  intros Hw Hne Hall. unfold words_of.
  change (quot ++ Str.join " " (w :: ws) ++ quot)%string
    with (String dquote (Str.join " " (w :: ws) ++ quot)).
  rewrite (trim_keep dquote _ dquote (String dquote (Str.join " " (w :: ws))));
    [| reflexivity | reflexivity | reflexivity].
  destruct ws as [|w2 ws]; [congruence|].
  change (String dquote (Str.join " " (w :: w2 :: ws) ++ quot))
    with (Str.join " " ((quot ++ w)%string :: w2 :: ws) ++ quot)%string.
  rewrite split_join; [| discriminate | | reflexivity].
  - change (map_last (fun w0 => (w0 ++ quot)%string) ((quot ++ w)%string :: w2 :: ws))
      with ((quot ++ w)%string :: map_last (fun w0 => (w0 ++ quot)%string) (w2 :: ws)).
    simpl List.filter.
    destruct (plain_parts w Hw) as [Hw0 _].
    destruct w as [|a w]; [congruence|]. simpl.
    f_equal. apply filter_all.
    now apply (quoted_kept _ (w2 :: ws) eq_refl).
  - constructor.
    + rewrite includes_app. simpl.
      apply plain_excludes; [apply plain_parts, Hw | simpl; auto 10].
    + eapply Forall_impl; [|exact Hall]. intros x Hx.
      apply plain_excludes; [apply plain_parts, Hx | simpl; auto 10].
Qed.

(** X7: quotation marks around a phrase of two or more plain words are
    lost: the phrase is cut at its spaces, the first and the last word lose
    their lone quotation mark, and the words are searched exactly as without
    the marks. *)
Theorem quoted_phrase_is_unquoted w ws :
  plain w = true -> ws <> [] ->
  Forall (fun w => plain w = true) ws ->
  tokenize (quot ++ Str.join " " (w :: ws) ++ quot)%string =
  tokenize (Str.join " " (w :: ws)).
Proof.
  intros Hw Hne Hall.
  rewrite (tokenize_plain (w :: ws)) by (now constructor).
  unfold tokenize. rewrite (words_of_quoted w ws Hw Hne Hall).
  cbn [fold_left]. cbv zeta. rewrite (orphan_leading w Hw).
  rewrite (fold_map_last
             (fun b word =>
                _make_fuzzy_and_enrich_with_word_parts
                  (_remove_orphan_leading_or_trailing_quotmarks word) b)
             (fun x => (x ++ quot)%string) ws).
  - rewrite (step_plain w no_words Hw).
    exact (fold_plain ws Hall _).
  - intros b x Hx. rewrite Forall_forall in Hall.
    rewrite (orphan_trailing x (Hall x Hx)).
    now rewrite (orphan_plain x) by (apply plain_parts, Hall, Hx).
Qed.

Lemma quoted_phrase_is_unquoted_witness :
  plain "open" = true /\ ["source"] <> [] /\
  Forall (fun w => plain w = true) ["source"] /\
  tokenize (quot ++ "open source" ++ quot)%string = tokenize "open source".
Proof.
  assert (H : Forall (fun w => plain w = true) ["source"]) by (repeat constructor).
  assert (Hne : ["source"] <> []) by discriminate.
  split; [reflexivity|]. split; [exact Hne|]. split; [exact H|].
  exact (quoted_phrase_is_unquoted "open" ["source"] eq_refl Hne H).
Defined.

(** ** The exact fields *)

Lemma substitution_plain matched behind template :
  Str.includes "$" template = false ->
  Str.substitution matched behind template = template.
Proof.
  induction template as [|a t IH]; simpl; [reflexivity|].
  intros H. apply orb_false_iff in H as [Ha Ht]. now rewrite Ha, IH.
Qed.

Lemma drop_append s1 s2 : Str.drop (String.length s1) (s1 ++ s2)%string = s2.
Proof. induction s1 as [|a s1 IH]; simpl; [now destruct s2 | exact IH]. Qed.

(** X8: a searched field whose name holds neither [^] nor [$] gets
    [.exact] behind its name, and a boost behind [^] stays where it is. *)
Theorem exact_field_keeps_boost name boost :
  Str.includes "^" name = false ->
  Str.includes "$" name = false ->
  exact_field name = (name ++ ".exact")%string /\
  exact_field (name ++ "^" ++ boost)%string = (name ++ ".exact" ++ "^" ++ boost)%string.
Proof.
  intros Hcaret Hdollar.
  assert (Hsub : forall behind,
             Str.substitution name behind (name ++ ".exact")%string =
             (name ++ ".exact")%string).
  { intros behind. apply substitution_plain.
    now rewrite includes_app, Hdollar. }
  unfold exact_field, Str.replace_prefix. cbv zeta. split.
  - rewrite (split_whole "^" name Hcaret). cbn [hd].
    rewrite Hsub. rewrite <- (append_empty name) at 3.
    rewrite drop_append. now rewrite append_empty.
  - change (name ++ "^" ++ boost)%string with (name ++ String "^" boost)%string.
    rewrite (split_at_separator "^" name boost Hcaret). cbn [hd].
    rewrite Hsub, drop_append, append_assoc. reflexivity.
Qed.

Lemma exact_field_keeps_boost_witness :
  Str.includes "^" "title" = false /\
  Str.includes "$" "title" = false /\
  exact_field "title" = "title.exact" /\
  exact_field "title^2" = "title.exact^2".
Proof.
  split; [reflexivity|]. split; [reflexivity|].
  exact (exact_field_keeps_boost "title" "2" eq_refl eq_refl).
Defined.

(** ** More on the request body *)

Section MoreBody.
Variables listFilterFields nestedFilterFields : list string.
Variable this : Serializer.

Lemma head_sort st :
  Obj.own "sort" (query_sort_paging this st []) =
  if String.eqb (sortBy st) "bestmatch" then None
  else Some (JArr [sortObj (sortBy st) (sortOrder st)]).
Proof.
  unfold query_sort_paging. cbv zeta.
  destruct (String.eqb (sortBy st) "bestmatch"); simpl negb; cbv iota;
    repeat own_step; reflexivity.
Qed.

(** X9: the request has a [sort] exactly when [sortBy] is not
    [bestmatch]; it is then the one-element list [{sortBy: direction}] with
    direction [desc] for the sort order [desc] and [asc] for every other sort
    order.  Sorting by [__proto__] gives the list of one empty object. *)
Theorem sort_key st body :
  serialize listFilterFields nestedFilterFields this st = Normal body ->
  (field "sort" body = None <-> sortBy st = "bestmatch") /\
  (sortBy st <> "bestmatch" -> sortBy st <> "__proto__" ->
   field "sort" body =
   Some (JArr [JObj [(sortBy st,
                      JStr (if String.eqb (sortOrder st) "desc"
                            then "desc" else "asc"))]])) /\
  (sortBy st = "__proto__" -> field "sort" body = Some (JArr [JObj []])).
Proof.
  intros Hser. destruct (serialize_assemble _ _ _ st body Hser) as [selected ->].
  rewrite assemble_head by discriminate. rewrite head_sort.
  destruct (String.eqb (sortBy st) "bestmatch") eqn:E.
  - apply String.eqb_eq in E. repeat split; auto; intros; congruence.
  - apply String.eqb_neq in E. repeat split; try congruence.
    + intros _ Hproto. unfold sortObj. cbv zeta.
      apply String.eqb_neq in Hproto. now rewrite Hproto.
    + intros Hproto. unfold sortObj. cbv zeta. now rewrite Hproto.
Qed.

(** X10: the request holds no other keys than [query] and [highlight]
    (together, for a non-empty query string), [sort], [size], [from],
    [post_filter] and [aggs], in this order; the last two always. *)
Theorem request_keys st body :
  serialize listFilterFields nestedFilterFields this st = Normal body ->
  exists o,
    body = JObj o /\
    Obj.keys o =
    (if Str.isEmpty (queryString st) then [] else ["query"; "highlight"]) ++
    (if String.eqb (sortBy st) "bestmatch" then [] else ["sort"]) ++
    (if (0 <? size st)%Z then ["size"] else []) ++
    (if (0 <? page st)%Z then ["from"] else []) ++
    ["post_filter"; "aggs"].
Proof.
  intros Hser. destruct (serialize_assemble _ _ _ st body Hser) as [selected ->].
  unfold assemble. cbv zeta. eexists. split; [reflexivity|].
  unfold query_sort_paging. cbv zeta.
  destruct (Str.isEmpty (queryString st)),
           (String.eqb (sortBy st) "bestmatch"),
           (0 <? size st)%Z, (0 <? page st)%Z; reflexivity.
Qed.

End MoreBody.

Lemma sort_key_witness :
  serialize [] all_nested sample_serializer
    (mkSearchState "" "modified" "DESC" 1 10 []) =
  Normal (assemble [] all_nested sample_serializer
            (mkSearchState "" "modified" "DESC" 1 10 []) None) /\
  field "sort"
    (assemble [] all_nested sample_serializer
       (mkSearchState "" "modified" "DESC" 1 10 []) None) =
  Some (JArr [JObj [("modified", JStr "asc")]]).
Proof.
  split; [reflexivity|].
  destruct (sort_key [] all_nested sample_serializer
              (mkSearchState "" "modified" "DESC" 1 10 []) _ eq_refl)
    as (_ & Hsort & _).
  apply Hsort; discriminate.
Defined.

Lemma request_keys_witness :
  serialize [] all_nested sample_serializer (state_of "foo" 0 10 []) =
  Normal (assemble [] all_nested sample_serializer (state_of "foo" 0 10 []) None) /\
  exists o,
    assemble [] all_nested sample_serializer (state_of "foo" 0 10 []) None = JObj o /\
    Obj.keys o = ["query"; "highlight"; "size"; "post_filter"; "aggs"].
Proof.
  split; [reflexivity|].
  exact (request_keys [] all_nested sample_serializer (state_of "foo" 0 10 []) _ eq_refl).
Defined.


(** ** More on the post-filter and the aggregations *)

Section MoreClauses.
Variables listFilterFields nestedFilterFields : list string.
Variable this : Serializer.

Lemma additionalterms_flat_map o :
  additionalterms listFilterFields o =
  flat_map
    (fun aggName =>
       if includes listFilterFields (Obj.own aggName aggFieldsMapping)
       then [JObj [("terms",
                    JObj [(property_key (Obj.own aggName aggFieldsMapping),
                           values_of aggName o)])]]
       else [])
    (Obj.keys o).
Proof.
  unfold additionalterms. cbv zeta.
  exact (fold_left_push
           (fun aggName => includes listFilterFields (Obj.own aggName aggFieldsMapping))
           (fun aggName =>
              JObj [("terms",
                     JObj [(property_key (Obj.own aggName aggFieldsMapping),
                            values_of aggName o)])])
           (Obj.keys o) []).
Qed.

(** A selected list facet has one clause among the added terms, and no
    other added clause is on its field. *)
Lemma additionalterms_clause o aggName fieldName values :
  NoDup (Obj.keys o) ->
  Obj.own aggName o = Some values ->
  Obj.own aggName aggFieldsMapping = Some fieldName ->
  In fieldName listFilterFields ->
  exists before after,
    additionalterms listFilterFields o =
    before ++ JObj [("terms", JObj [(fieldName, strings values)])] :: after /\
    forall el v, In el (before ++ after) ->
                 el <> JObj [("terms", JObj [(fieldName, v)])].
Proof.
  intros Hnd Hown Hmap Hin.
  assert (Hkey : In aggName (Obj.keys o)) by (eapply ObjFacts.own_Some_In; eauto).
  destruct (in_split _ _ Hkey) as (l1 & l2 & Hsplit).
  set (g := fun aggName =>
              if includes listFilterFields (Obj.own aggName aggFieldsMapping)
              then [JObj [("terms",
                           JObj [(property_key (Obj.own aggName aggFieldsMapping),
                                  values_of aggName o)])]]
              else []).
  exists (flat_map g l1), (flat_map g l2). split.
  - rewrite additionalterms_flat_map. fold g. rewrite Hsplit, flat_map_app. simpl.
    f_equal. unfold g at 1. rewrite Hmap.
    rewrite (proj2 (includes_In _ _) Hin). unfold values_of. rewrite Hown. reflexivity.
  - intros el v Hel Heq.
    assert (Hother : exists k, In k (l1 ++ l2) /\ In el (g k)).
    { apply in_app_or in Hel as [Hel|Hel]; apply in_flat_map in Hel as (k & Hk & Hg);
        exists k; split; auto; apply in_or_app; auto. }
    destruct Hother as (k & Hk & Hg). unfold g in Hg.
    destruct (includes listFilterFields (Obj.own k aggFieldsMapping)) eqn:Hinc;
      [|destruct Hg].
    destruct Hg as [<-|[]].
    destruct (Obj.own k aggFieldsMapping) as [f|] eqn:Hf; [|discriminate].
    simpl in Heq. injection Heq as Hfield _. subst f.
    assert (k = aggName) by (eapply aggFieldsMapping_injective; eauto). subst k.
    rewrite Hsplit in Hnd. apply NoDup_remove_2 in Hnd. contradiction.
Qed.

Lemma post_filter_must terms filter :
  path ["bool"; "must"] (post_filter terms filter) = Some (JArr terms).
Proof.
  unfold post_filter. cbv zeta.
  destruct (negb (isEmpty (JArr filter))); unfold path, field;
    cbn [Obj.own String.eqb Ascii.eqb Bool.eqb];
    rewrite ?ObjFacts.own_set_other by discriminate; reflexivity.
Qed.

Lemma post_filter_filter terms filter :
  path ["bool"; "filter"] (post_filter terms filter) =
  match filter with
  | [] => None
  | _ :: _ => Some (JArr filter)
  end.
Proof.
  unfold post_filter. cbv zeta. destruct filter as [|el l]; [reflexivity|].
  simpl isEmpty. simpl negb. cbv iota. unfold path, field.
  cbn [Obj.own String.eqb Ascii.eqb Bool.eqb].
  now rewrite ObjFacts.own_set_same.
Qed.

Lemma path_post_filter st selected ks :
  path ("post_filter" :: ks)
    (assemble listFilterFields nestedFilterFields this st selected) =
  path ks (post_filter
             (fst (terms_and_filter listFilterFields nestedFilterFields this selected))
             (snd (terms_and_filter listFilterFields nestedFilterFields this selected))).
Proof. cbn [path]. now rewrite assemble_post_filter. Qed.

(** X11: [post_filter.bool.must] is the two global clauses followed by one
    [{terms: {field: values}}] for every facet with selected values whose
    field is a list field, and by nothing else. *)
Theorem list_facet_post_filter st body :
  serialize listFilterFields nestedFilterFields this st = Normal body ->
  exists added,
    path ["post_filter"; "bool"; "must"] body =
    Some (JArr (global_terms this ++ added)) /\
    (forall el, In el added ->
       exists aggName fieldName,
         Obj.own aggName aggFieldsMapping = Some fieldName /\
         In fieldName listFilterFields /\
         values_for aggName (selections (filters st)) <> [] /\
         el = JObj [("terms",
                     JObj [(fieldName,
                            strings (values_for aggName (selections (filters st))))])]) /\
    (forall aggName fieldName,
       Obj.own aggName aggFieldsMapping = Some fieldName ->
       In fieldName listFilterFields ->
       values_for aggName (selections (filters st)) <> [] ->
       exists before after,
         added =
         before ++
         JObj [("terms",
                JObj [(fieldName,
                       strings (values_for aggName (selections (filters st))))])] ::
         after /\
         forall el v, In el (before ++ after) ->
                      el <> JObj [("terms", JObj [(fieldName, v)])]).
Proof.
  intros Hser.
  destruct (serialize_inv _ _ _ st body Hser) as [[Hnil ->]|(o & Hne & Hget & ->)];
    rewrite path_post_filter, post_filter_must; unfold terms_and_filter; cbv zeta;
    cbn [fst].
  - exists []. rewrite app_nil_r. split; [reflexivity|]. split.
    + intros el [].
    + intros ? ? _ _ H. rewrite Hnil in H. now destruct H.
  - destruct (getFilters_inv _ _ Hget) as [[Hnd _] Hown].
    exists (additionalterms listFilterFields o). split; [reflexivity|]. split.
    + intros el Hel.
      destruct (additionalterms_origin listFilterFields o el Hel)
        as (aggName & fieldName & Hkey & Hmap & Hin & ->).
      apply ObjFacts.own_In_keys in Hkey. unfold values_of.
      rewrite Hown in *.
      destruct (values_for aggName (selections (filters st))) eqn:Hv;
        [now destruct Hkey|].
      exists aggName, fieldName. rewrite Hv. repeat split; auto. discriminate.
    + intros aggName fieldName Hmap Hin Hsel.
      apply (additionalterms_clause o aggName fieldName); auto.
      rewrite Hown. destruct (values_for aggName _); [contradiction | reflexivity].
Qed.

Lemma unknown_names_add_nothing o :
  (forall k, In k (Obj.keys o) -> Obj.own k aggFieldsMapping = None) ->
  terms_and_filter listFilterFields nestedFilterFields this (Some o) =
  terms_and_filter listFilterFields nestedFilterFields this None.
Proof.
  intros Hunknown. unfold terms_and_filter. cbv zeta.
  assert (Hterms : additionalterms listFilterFields o = []).
  { destruct (additionalterms listFilterFields o) as [|el l] eqn:E; [reflexivity|].
    destruct (additionalterms_origin listFilterFields o el)
      as (k & f & Hk & Hmap & _); [rewrite E; now left|].
    rewrite (Hunknown k Hk) in Hmap. discriminate. }
  assert (Hfilter : nested_filter nestedFilterFields o = []).
  { destruct (nested_filter nestedFilterFields o) as [|el l] eqn:E; [reflexivity|].
    destruct (nested_filter_origin nestedFilterFields o el)
      as (k & f & v & Hk & Hmap & _); [rewrite E; now left|].
    apply ObjFacts.own_Some_In in Hk.
    rewrite (Hunknown k Hk) in Hmap. discriminate. }
  now rewrite Hterms, Hfilter, app_nil_r.
Qed.

Lemma assemble_with_filters st fs selected :
  assemble listFilterFields nestedFilterFields this (with_filters st fs) selected =
  assemble listFilterFields nestedFilterFields this st selected.
Proof. destruct st. reflexivity. Qed.

(** X12: filters on facet names that are neither configured nor inherited
    change nothing: the request is the one of the same search state without
    filters. *)
Theorem unknown_facets_change_nothing st :
  Forall (fun p => Obj.inherited (fst p) = false /\
                   Obj.own (fst p) aggFieldsMapping = None)
    (selections (filters st)) ->
  serialize listFilterFields nestedFilterFields this st =
  serialize listFilterFields nestedFilterFields this (with_filters st []).
Proof.
  intros Hunknown.
  assert (Hnames : Forall (fun p => Obj.inherited (fst p) = false)
                     (selections (filters st))).
  { eapply Forall_impl; [|exact Hunknown]. now intros p [H _]. }
  destruct (getFilters_normal _ Hnames) as (o & Hget & _ & Hown).
  unfold serialize. rewrite Hget. cbn [with_filters filters has_length bind].
  change (mkSearchState (queryString st) (sortBy st) (sortOrder st) (page st)
            (size st) []) with (with_filters st []).
  rewrite assemble_with_filters.
  destruct (has_length (filters st)); cbn [bind]; [|reflexivity].
  apply (f_equal Normal). unfold assemble. cbv zeta.
  rewrite unknown_names_add_nothing; [reflexivity|].
  intros k Hk. apply ObjFacts.own_In_keys in Hk. rewrite Hown in Hk.
  destruct (values_for k (selections (filters st))) eqn:Hv; [now destruct Hk|].
  assert (Hin : In k (map fst (selections (filters st)))).
  { destruct (in_dec string_dec k (map fst (selections (filters st)))) as [H|H];
      [exact H|]. apply values_for_nil in H. congruence. }
  apply in_map_iff in Hin as (p & <- & Hp).
  rewrite Forall_forall in Hunknown. apply (Hunknown p Hp).
Qed.

(** X13: around the aggregation of a nested facet [G] lies [match_all]
    when the post-filter has no nested clauses; otherwise the nested clauses
    of the post-filter without those on the path of [G], in the same order. *)
Theorem aggregation_filter_from_post_filter st body G fieldG :
  serialize listFilterFields nestedFilterFields this st = Normal body ->
  Obj.own G aggFieldsMapping = Some fieldG ->
  In fieldG nestedFilterFields ->
  (path ["post_filter"; "bool"; "filter"] body = None ->
   path ["aggs"; first_segment G; "filter"] body =
   Some (JObj [("match_all", JObj [])])) /\
  (forall clauses,
     path ["post_filter"; "bool"; "filter"] body = Some (JArr clauses) ->
     path ["aggs"; first_segment G; "filter"] body =
     Some (wrapping_filter
             (List.filter (fun el => negb (String.eqb (nested_path el) fieldG))
                clauses))).
Proof.
  intros Hser HmapG HinG.
  assert (Hagg : forall selected,
    path ["aggs"; first_segment G; "filter"]
      (assemble listFilterFields nestedFilterFields this st selected) =
    Some (aggregation_filter
            (snd (terms_and_filter listFilterFields nestedFilterFields this selected))
            (Str.split "." G))).
  { intros selected. cbn [path]. rewrite assemble_aggs.
    unfold aggregations. cbv zeta. unfold field at 1.
    now rewrite (nested_aggregation_entry nestedFilterFields _ _ G fieldG HmapG HinG). }
  destruct (serialize_inv _ _ _ st body Hser) as [[Hnil ->]|(o & Hne & Hget & ->)];
    rewrite Hagg, path_post_filter, post_filter_filter;
    unfold terms_and_filter; cbv zeta; cbn [snd].
  - split; [reflexivity | discriminate].
  - destruct (nested_filter nestedFilterFields o) as [|el l] eqn:Hf.
    + split; [reflexivity | discriminate].
    + split; [discriminate|]. intros clauses [= <-].
      assert (Hext :
        List.filter
          (fun x => negb (Str.startsWith (nested_path x)
                            (property_key (nth_error (Str.split "." G) 0))))
          (el :: l) =
        List.filter (fun x => negb (String.eqb (nested_path x) fieldG)) (el :: l)).
      { apply filter_ext_in. intros x Hx. f_equal.
        rewrite <- Hf in Hx.
        destruct (nested_filter_origin nestedFilterFields o x Hx)
          as (k & f & v & _ & Hmap & _ & ->).
        rewrite nested_path_clause.
        change (property_key (nth_error (Str.split "." G) 0)) with (first_segment G).
        destruct (String.eqb f fieldG) eqn:E.
        - apply String.eqb_eq in E. subst f.
          assert (k = G) by (eapply aggFieldsMapping_injective; eauto). subst k.
          now apply own_field_is_prefix.
        - apply String.eqb_neq in E.
          apply (other_field_is_no_prefix k f G fieldG Hmap HmapG).
          intros ->. congruence. }
      unfold aggregation_filter. simpl isEmpty. cbv iota.
      rewrite Hext. reflexivity.
Qed.

(** X14: [aggs] has one entry under its full name for every configured
    facet whose field is a list field, then one entry under the head of its
    name for every configured facet whose field is a nested field, and no
    other entry. *)
Theorem aggregation_names st body :
  serialize listFilterFields nestedFilterFields this st = Normal body ->
  exists aggs,
    field "aggs" body = Some (JObj aggs) /\
    Obj.keys aggs =
    map fst
      (List.filter (fun kv => includes listFilterFields (Some (snd kv)))
         aggFieldsMapping) ++
    map (fun kv => first_segment (fst kv))
      (List.filter (fun kv => includes nestedFilterFields (Some (snd kv)))
         aggFieldsMapping).
Proof.
  intros Hser. destruct (serialize_assemble _ _ _ st body Hser) as [selected ->].
  rewrite assemble_aggs. unfold aggregations. cbv zeta.
  eexists. split; [reflexivity|].
  unfold nested_aggregations, list_aggregations. cbv zeta.
  unfold aggFieldsMapping.
  cbn [Obj.keys map fst snd fold_left Obj.own String.eqb Ascii.eqb Bool.eqb List.filter].
  destruct (includes listFilterFields (Some "kompasscomponent")),
           (includes listFilterFields (Some "targetaudience")),
           (includes listFilterFields (Some "organisationunit")),
           (includes listFilterFields (Some "informationtype")),
           (includes nestedFilterFields (Some "kompasscomponent")),
           (includes nestedFilterFields (Some "targetaudience")),
           (includes nestedFilterFields (Some "organisationunit")),
           (includes nestedFilterFields (Some "informationtype"));
    reflexivity.
Qed.

End MoreClauses.

Lemma list_facet_post_filter_witness :
  serialize ["kompasscomponent"] [] sample_serializer
    (state_of "" 1 10 [Chain kompass "BEW" None]) =
  Normal (assemble ["kompasscomponent"] [] sample_serializer
            (state_of "" 1 10 [Chain kompass "BEW" None])
            (Some [(kompass, ["BEW"])])) /\
  exists added,
    path ["post_filter"; "bool"; "must"]
      (assemble ["kompasscomponent"] [] sample_serializer
         (state_of "" 1 10 [Chain kompass "BEW" None])
         (Some [(kompass, ["BEW"])])) =
    Some (JArr (global_terms sample_serializer ++ added)) /\
    exists before after,
      added =
      before ++
      JObj [("terms", JObj [("kompasscomponent", strings ["BEW"])])] :: after /\
      forall el v, In el (before ++ after) ->
                   el <> JObj [("terms", JObj [("kompasscomponent", v)])].
Proof.
  split; [reflexivity|].
  destruct (list_facet_post_filter ["kompasscomponent"] [] sample_serializer
              (state_of "" 1 10 [Chain kompass "BEW" None]) _ eq_refl)
    as (added & Hmust & _ & Hclause).
  exists added. split; [exact Hmust|].
  apply (Hclause kompass "kompasscomponent").
  - reflexivity.
  - simpl. auto.
  - discriminate.
Defined.

Lemma unknown_facets_change_nothing_witness :
  Forall (fun p => Obj.inherited (fst p) = false /\
                   Obj.own (fst p) aggFieldsMapping = None)
    (selections [Chain "type_agg" "News" None]) /\
  serialize [] all_nested sample_serializer
    (state_of "foo" 1 10 [Chain "type_agg" "News" None]) =
  serialize [] all_nested sample_serializer (state_of "foo" 1 10 []).
Proof.
  assert (H : Forall (fun p => Obj.inherited (fst p) = false /\
                               Obj.own (fst p) aggFieldsMapping = None)
                (selections [Chain "type_agg" "News" None])).
  { repeat constructor. }
  split; [exact H|].
  exact (unknown_facets_change_nothing [] all_nested sample_serializer
           (state_of "foo" 1 10 [Chain "type_agg" "News" None]) H).
Defined.

Lemma aggregation_filter_from_post_filter_witness :
  serialize [] all_nested sample_serializer (state_of "" 1 10 []) =
  Normal (assemble [] all_nested sample_serializer (state_of "" 1 10 []) None) /\
  Obj.own audience aggFieldsMapping = Some "targetaudience" /\
  In "targetaudience" all_nested /\
  path ["post_filter"; "bool"; "filter"]
    (assemble [] all_nested sample_serializer (state_of "" 1 10 []) None) = None /\
  path ["aggs"; "targetaudience_agg"; "filter"]
    (assemble [] all_nested sample_serializer (state_of "" 1 10 []) None) =
  Some (JObj [("match_all", JObj [])]).
Proof.
  assert (Hin : In "targetaudience" all_nested) by (simpl; auto).
  split; [reflexivity|]. split; [reflexivity|]. split; [exact Hin|].
  split; [reflexivity|].
  destruct (aggregation_filter_from_post_filter [] all_nested sample_serializer
              (state_of "" 1 10 []) _ audience "targetaudience" eq_refl eq_refl Hin)
    as (Hnone & _).
  apply Hnone. reflexivity.
Defined.

Lemma aggregation_names_witness :
  serialize ["targetaudience"] ["kompasscomponent"] sample_serializer
    (state_of "" 1 10 []) =
  Normal (assemble ["targetaudience"] ["kompasscomponent"] sample_serializer
            (state_of "" 1 10 []) None) /\
  exists aggs,
    field "aggs"
      (assemble ["targetaudience"] ["kompasscomponent"] sample_serializer
         (state_of "" 1 10 []) None) = Some (JObj aggs) /\
    Obj.keys aggs = [audience; "kompasscomponent_agg"].
Proof.
  split; [reflexivity|].
  exact (aggregation_names ["targetaudience"] ["kompasscomponent"] sample_serializer
           (state_of "" 1 10 []) _ eq_refl).
Defined.


(** ** The serializer on [multi_match]: strings *)

Lemma prefix_empty s : String.prefix "" s = true.
Proof. now destruct s. Qed.

(** A prefix of [s ++ t] lies in [s], or reaches over all of [s] into [t]. *)
Lemma prefix_append p : forall s t,
  String.prefix p (s ++ t)%string = true ->
  String.prefix p s = true \/
  exists p2, p = (s ++ p2)%string /\ p2 <> "" /\ String.prefix p2 t = true.
Proof.
  induction p as [|a p IH]; intros s t H.
  - left. apply prefix_empty.
  - destruct s as [|b s].
    + right. exists (String a p). repeat split; [discriminate | exact H].
    + simpl in H |- *. destruct (ascii_dec a b) as [->|]; [|discriminate].
      destruct (IH s t H) as [Hs|(p2 & -> & Hne & Hp2)]; [now left|].
      right. exists p2. now repeat split.
Qed.

Lemma agg_suffix_not_reached f :
  f <> "" -> String.prefix "_agg" f = false ->
  String.prefix "_agg" (f ++ "_agg")%string = false.
Proof.
  intros Hne Hf. destruct (String.prefix "_agg" (f ++ "_agg")%string) eqn:E;
    [|reflexivity].
  destruct (prefix_append "_agg" f "_agg" E) as [H|(p2 & Hp & Hp2 & Hpre)];
    [congruence|]. exfalso.
  destruct f as [|a [|b [|c [|d f]]]]; try congruence;
    simpl in Hp; injection Hp as; subst; try discriminate Hpre.
  destruct f; [now apply Hp2 | discriminate].
Qed.

Lemma getFieldnameFromAgg_suffix f :
  occurs "_agg" f = false ->
  MultiMatch.getFieldnameFromAgg (f ++ "_agg")%string = f /\
  MultiMatch.getFieldnameFromAgg f = f.
Proof.
  unfold MultiMatch.getFieldnameFromAgg. induction f as [|a f IH]; intros Hocc.
  - split; reflexivity.
  - change (occurs "_agg" (String a f))
      with (String.prefix "_agg" (String a f) || occurs "_agg" f) in Hocc.
    apply orb_false_iff in Hocc as [Hpre Hrest].
    destruct (IH Hrest) as [IH1 IH2]. split.
    + change (String a f ++ "_agg")%string with (String a (f ++ "_agg"))%string.
      change (MultiMatch.remove_first_occurrence "_agg" (String a (f ++ "_agg")))
        with (if String.prefix "_agg" (String a (f ++ "_agg"))
              then Str.drop (String.length "_agg") (String a (f ++ "_agg"))
              else String a (MultiMatch.remove_first_occurrence "_agg" (f ++ "_agg"))).
      change (String a (f ++ "_agg"))%string with (String a f ++ "_agg")%string at 1.
      rewrite (agg_suffix_not_reached (String a f)) by (discriminate || exact Hpre).
      now rewrite IH1.
    + change (MultiMatch.remove_first_occurrence "_agg" (String a f))
        with (if String.prefix "_agg" (String a f)
              then Str.drop (String.length "_agg") (String a f)
              else String a (MultiMatch.remove_first_occurrence "_agg" f)).
      now rewrite Hpre, IH2.
Qed.

(** X15: the name of a selected option leads back to its facet: removing
    [_agg] from [facet_agg] gives [facet] whenever [_agg] does not occur in
    the facet name itself, and a name without [_agg] is left as it is. *)
Theorem getFieldnameFromAgg_of_aggregation_name f :
  occurs "_agg" f = false ->
  MultiMatch.getFieldnameFromAgg (f ++ "_agg")%string = f /\
  MultiMatch.getFieldnameFromAgg f = f.
Proof. exact (getFieldnameFromAgg_suffix f). Qed.

Lemma getFieldnameFromAgg_of_aggregation_name_witness :
  occurs "_agg" "portal_type" = false /\
  MultiMatch.getFieldnameFromAgg "portal_type_agg" = "portal_type" /\
  MultiMatch.getFieldnameFromAgg "portal_type" = "portal_type".
Proof.
  split; [reflexivity|].
  exact (getFieldnameFromAgg_of_aggregation_name "portal_type" eq_refl).
Defined.

Lemma quote_char_head a :
  (MultiMatch.quote_char a = String a "" /\ a <> dquote /\ a <> "\"%char) \/
  (exists t, MultiMatch.quote_char a = String "\" t).
Proof.
  destruct a as [[] [] [] [] [] [] [] []];
    first [ left; split;
              [reflexivity | split; [unfold dquote; discriminate | discriminate]]
          | right; eexists; cbv; reflexivity ].
Qed.

(** What is quoted into [w] followed by a quotation mark, [w] without
    quotation mark and backslash, is [w]. *)
Lemma quote_chars_inv w : forall s rest rest',
  Str.includes dquote w = false -> Str.includes "\" w = false ->
  (MultiMatch.quote_chars s ++ String dquote rest)%string =
  (w ++ String dquote rest')%string ->
  s = w /\ rest = rest'.
Proof.
  induction w as [|b w IH]; intros s rest rest' Hq Hb E.
  - destruct s as [|a s].
    + simpl in E. injection E as ->. now split.
    + simpl in E. destruct (quote_char_head a) as [(Ha & Hne & _)|(t & Ha)];
        rewrite Ha in E; simpl in E; injection E as E1 _; congruence.
  - simpl in Hq, Hb.
    apply orb_false_iff in Hq as [Hq1 Hq2]. apply orb_false_iff in Hb as [Hb1 Hb2].
    apply Ascii.eqb_neq in Hq1, Hb1.
    destruct s as [|a s].
    + simpl in E. injection E as E1 _. congruence.
    + simpl in E. destruct (quote_char_head a) as [(Ha & _ & _)|(t & Ha)];
        rewrite Ha in E; simpl in E; injection E as E1 E2; [|congruence].
      subst b. destruct (IH s rest rest' Hq2 Hb2 E2) as [-> ->]. now split.
Qed.

Lemma stringify_others values :
  String.eqb (MultiMatch.JSON_stringify values)
    ("[" ++ quot ++ "others" ++ quot ++ "]")%string = true <->
  values = ["others"].
Proof.
  split; [|intros ->; reflexivity].
  intros H. apply String.eqb_eq in H.
  unfold MultiMatch.JSON_stringify, Str.join, quot in H.
  destruct values as [|s [|s2 values]].
  - discriminate H.
  - cbn [map String.concat append] in H. injection H as H.
    rewrite append_assoc in H. cbn [append] in H.
    apply (quote_chars_inv "others" s "]" "]" eq_refl eq_refl) in H.
    now destruct H as [-> _].
  - exfalso. cbn [map String.concat append] in H. injection H as H.
    rewrite !append_assoc in H. cbn [append] in H.
    apply (quote_chars_inv "others" s _ "]" eq_refl eq_refl) in H.
    destruct H as [_ H]. discriminate H.
Qed.

(** ** The serializer on [multi_match]: the request *)

Lemma find_last {A : Type} (f : A -> bool) l x :
  List.find f (rev l) = Some x <->
  exists before after,
    l = before ++ x :: after /\ f x = true /\
    Forall (fun e => f e = false) after.
Proof.
  revert x. induction l as [|a l IH] using rev_ind; intros x.
  - simpl. split; [discriminate|].
    intros (before & after & E & _). now destruct before.
  - rewrite rev_app_distr. simpl. destruct (f a) eqn:Ha.
    + split.
      * intros [= <-]. exists l, []. repeat split; auto.
      * intros (before & after & E & Hx & Hafter).
        destruct after as [|z after] using rev_ind.
        -- apply app_inj_tail in E as [_ ->]. reflexivity.
        -- clear IHafter. rewrite app_comm_cons, app_assoc in E.
           apply app_inj_tail in E as [_ ->].
           apply Forall_app in Hafter as [_ Hz]. inversion Hz; congruence.
    + rewrite IH. split.
      * intros (before & after & -> & Hx & Hafter).
        exists before, (after ++ [a]). rewrite <- app_assoc. repeat split; auto.
        apply Forall_app. split; [exact Hafter | now constructor].
      * intros (before & after & E & Hx & Hafter).
        destruct after as [|z after] using rev_ind.
        -- apply app_inj_tail in E as [_ ->]. congruence.
        -- clear IHafter. rewrite app_comm_cons, app_assoc in E.
           apply app_inj_tail in E as [-> ->].
           apply Forall_app in Hafter as [Hafter _].
           exists before, after. now repeat split.
Qed.

(** The last filter of the sequence named [section] selects [others]. *)
Lemma section_is_others_iff filters :
  MultiMatch.section_is_others (MultiMatch.section_of filters) = true <->
  exists before child after,
    filters = before ++ Chain "section" "others" child :: after /\
    Forall (fun e => chain_name e <> "section") after.
Proof.
  unfold MultiMatch.section_of, MultiMatch.section_is_others.
  set (f := fun e => match e with Chain aggName _ _ => String.eqb aggName "section" end).
  assert (Hf : forall after,
    Forall (fun e => f e = false) after <->
    Forall (fun e => chain_name e <> "section") after).
  { intros after. split; apply Forall_impl; intros [n v c]; simpl;
      [apply String.eqb_neq | apply String.eqb_neq]. }
  split.
  - destruct (List.find f (rev filters)) as [[n v c]|] eqn:E; [|discriminate].
    intros Hv. apply String.eqb_eq in Hv. subst v.
    apply find_last in E as (before & after & -> & Hn & Hafter).
    simpl in Hn. apply String.eqb_eq in Hn. subst n.
    exists before, c, after. split; [reflexivity | now apply Hf].
  - intros (before & child & after & -> & Hafter).
    assert (E : List.find f (rev (before ++ Chain "section" "others" child :: after)) =
                Some (Chain "section" "others" child)).
    { apply find_last. exists before, after. repeat split. now apply Hf. }
    now rewrite E.
Qed.

Section MultiMatchBody.
Variable this : MultiMatch.Serializer.

Lemma mm_serialize_inv st body :
  MultiMatch.serialize this st = Normal body ->
  exists o,
    getFilters (filters st) = Normal o /\
    body = MultiMatch.assemble this st (MultiMatch.terms_of_selected_options o).
Proof.
  unfold MultiMatch.serialize. destruct (filters st) as [|c fs] eqn:Hfs; simpl.
  - intros [= <-]. exists []. split; reflexivity.
  - destruct (getFilters (c :: fs)) as [o|]; simpl; [|discriminate].
    intros [= <-]. exists o. split; reflexivity.
Qed.

Lemma mm_path_post_filter st selected ks :
  path ("post_filter" :: ks) (MultiMatch.assemble this st selected) =
  path ks (MultiMatch.post_filter this (MultiMatch.section_of (filters st)) selected).
Proof.
  cbn [path]. unfold MultiMatch.assemble. cbv zeta. unfold field.
  rewrite ObjFacts.own_set_other by discriminate.
  now rewrite ObjFacts.own_set_same.
Qed.

Lemma mm_path_aggs st selected k ks :
  path ("aggs" :: k :: ks) (MultiMatch.assemble this st selected) =
  match Obj.own k (MultiMatch.aggregations this
                     (MultiMatch.section_of (filters st)) selected) with
  | Some v => path ks v
  | None => None
  end.
Proof.
  cbn [path]. unfold MultiMatch.assemble. cbv zeta. unfold field at 1.
  now rewrite ObjFacts.own_set_same.
Qed.

Lemma mm_post_filter_must section selected :
  path ["bool"; "must"] (MultiMatch.post_filter this section selected) =
  Some (JArr (MultiMatch.terms this ++ selected)).
Proof.
  unfold MultiMatch.post_filter. cbv zeta.
  destruct (MultiMatch.section_is_others section); unfold path, field;
    cbn [Obj.own String.eqb Ascii.eqb Bool.eqb];
    rewrite ?ObjFacts.own_set_other by discriminate; reflexivity.
Qed.

Lemma mm_post_filter_must_not section selected :
  path ["bool"; "must_not"] (MultiMatch.post_filter this section selected) =
  if MultiMatch.section_is_others section
  then Some (MultiMatch.excluded_sections this) else None.
Proof.
  unfold MultiMatch.post_filter. cbv zeta.
  destruct (MultiMatch.section_is_others section); unfold path, field;
    cbn [Obj.own String.eqb Ascii.eqb Bool.eqb];
    rewrite ?ObjFacts.own_set_same; reflexivity.
Qed.

(** X16: [post_filter.bool.must_not] keeps the documents of the configured
    sections out exactly when the last filter of the sequence that is named
    [section] selects [others]; a [section] chosen in a child chain does not
    count, and otherwise there is no [must_not]. *)
Theorem others_excludes_the_sections st body :
  MultiMatch.serialize this st = Normal body ->
  (path ["post_filter"; "bool"; "must_not"] body =
   Some (JArr [JObj [("terms",
                      JObj [("section",
                             JArr (map (get "section")
                                     (MultiMatch.search_sections_items this)))])]]) <->
   exists before child after,
     filters st = before ++ Chain "section" "others" child :: after /\
     Forall (fun e => chain_name e <> "section") after) /\
  (path ["post_filter"; "bool"; "must_not"] body = None <->
   ~ exists before child after,
       filters st = before ++ Chain "section" "others" child :: after /\
       Forall (fun e => chain_name e <> "section") after).
Proof.
  intros Hser. destruct (mm_serialize_inv st body Hser) as (o & _ & ->).
  rewrite mm_path_post_filter, mm_post_filter_must_not.
  rewrite <- section_is_others_iff.
  destruct (MultiMatch.section_is_others (MultiMatch.section_of (filters st)));
    split; split; try reflexivity; try discriminate; try congruence.
Qed.

End MultiMatchBody.

Lemma others_excludes_the_sections_witness :
  MultiMatch.serialize MultiMatch.sample
    (state_of "" 1 10 [Chain "type_agg" "News" (Some (Chain "section" "others" None))]) =
  Normal (MultiMatch.assemble MultiMatch.sample
            (state_of "" 1 10
               [Chain "type_agg" "News" (Some (Chain "section" "others" None))])
            (MultiMatch.terms_of_selected_options
               [("type_agg", ["News"]); ("section", ["others"])])) /\
  path ["post_filter"; "bool"; "must_not"]
    (MultiMatch.assemble MultiMatch.sample
       (state_of "" 1 10
          [Chain "type_agg" "News" (Some (Chain "section" "others" None))])
       (MultiMatch.terms_of_selected_options
          [("type_agg", ["News"]); ("section", ["others"])])) = None.
Proof.
  split; [reflexivity|].
  destruct (others_excludes_the_sections MultiMatch.sample
              (state_of "" 1 10
                 [Chain "type_agg" "News" (Some (Chain "section" "others" None))])
              _ eq_refl) as (_ & Hnone).
  apply Hnone. intros (before & child & after & E & _).
  destruct before as [|b [|b2 before]]; simpl in E; discriminate E.
Defined.

Lemma length_append (s1 s2 : string) :
  String.length (s1 ++ s2)%string = (String.length s1 + String.length s2)%nat.
Proof. induction s1 as [|a s1 IH]; simpl; [reflexivity | now rewrite IH]. Qed.

Lemma append_inj_right (t s1 : string) : forall s2,
  (s1 ++ t)%string = (s2 ++ t)%string -> s1 = s2.
Proof.
  induction s1 as [|a s1 IH]; intros [|b s2] E; simpl in E.
  - reflexivity.
  - apply (f_equal String.length) in E. simpl in E. rewrite length_append in E. lia.
  - apply (f_equal String.length) in E. simpl in E. rewrite length_append in E. lia.
  - injection E as -> E. f_equal. now apply IH.
Qed.

Lemma aggregation_name_injective k G :
  G <> "Subject" -> G <> "subjects" ->
  MultiMatch.aggregation_name k = MultiMatch.aggregation_name G -> k = G.
Proof.
  intros H1 H2. unfold MultiMatch.aggregation_name. cbv zeta.
  apply String.eqb_neq in H1. rewrite H1.
  destruct (String.eqb k "Subject").
  - intros E. exfalso. apply H2. symmetry.
    apply (append_inj_right "_agg" "subjects" G E).
  - apply append_inj_right.
Qed.

Lemma length_flat_map_cond {A B : Type} (c : A -> bool) (v : A -> B) l :
  List.length (flat_map (fun x => if c x then [v x] else []) l) =
  List.length (List.filter c l).
Proof.
  induction l as [|x l IH]; simpl; [reflexivity|].
  destruct (c x); simpl; now rewrite IH.
Qed.

Lemma length_filter_but_one {A : Type} (c : A -> bool) x l :
  NoDup l -> In x l -> c x = false ->
  (forall y, In y l -> y <> x -> c y = true) ->
  S (List.length (List.filter c l)) = List.length l.
Proof.
  intros Hnd Hin Hx Hrest.
  destruct (in_split _ _ Hin) as (l1 & l2 & ->).
  apply NoDup_remove_2 in Hnd.
  rewrite filter_app. simpl. rewrite Hx.
  rewrite !filter_all, !length_app; simpl; [lia | |].
  - apply Forall_forall. intros y Hy. apply Hrest; [apply in_or_app; simpl; auto|].
    intros ->. apply Hnd. apply in_or_app. now right.
  - apply Forall_forall. intros y Hy. apply Hrest; [apply in_or_app; auto|].
    intros ->. apply Hnd. apply in_or_app. now left.
Qed.

Section MultiMatchClauses.
Variable this : MultiMatch.Serializer.

(** Whether a selected name gets a clause. *)
Lemma mm_terms_length o :
  List.length (MultiMatch.terms_of_selected_options o) =
  List.length
    (List.filter
       (fun aggName =>
          negb (String.eqb aggName "section") ||
          negb (match Obj.own aggName o with
                | Some values =>
                    String.eqb (MultiMatch.JSON_stringify values)
                      ("[" ++ quot ++ "others" ++ quot ++ "]")%string
                | None => false
                end))
       (Obj.keys o)).
Proof.
  unfold MultiMatch.terms_of_selected_options. cbv zeta.
  rewrite (fold_left_push
             (fun aggName =>
                negb (String.eqb aggName "section") ||
                negb (match Obj.own aggName o with
                      | Some values =>
                          String.eqb (MultiMatch.JSON_stringify values)
                            ("[" ++ quot ++ "others" ++ quot ++ "]")%string
                      | None => false
                      end))
             (fun aggName =>
                JObj [("terms",
                       JObj (if String.eqb (MultiMatch.getFieldnameFromAgg aggName)
                                  "subjects"
                             then [("subjects.keyword", values_of aggName o)]
                             else if String.eqb (MultiMatch.getFieldnameFromAgg aggName)
                                       "__proto__"
                                  then []
                                  else [(MultiMatch.getFieldnameFromAgg aggName,
                                         values_of aggName o)]))])
             (Obj.keys o) []).
  rewrite app_nil_l. apply length_flat_map_cond.
Qed.

Lemma only_others_stringify values :
  String.eqb (MultiMatch.JSON_stringify values)
    ("[" ++ quot ++ "others" ++ quot ++ "]")%string = only_others values.
Proof.
  destruct (String.eqb (MultiMatch.JSON_stringify values)
              ("[" ++ quot ++ "others" ++ quot ++ "]")%string) eqn:E.
  - apply stringify_others in E. now subst values.
  - destruct (only_others values) eqn:E'; [|reflexivity].
    assert (values = ["others"]) as ->.
    { destruct values as [|v [|v' vs]]; try discriminate E'.
      apply String.eqb_eq in E'. now subst v. }
    discriminate E.
Qed.

Lemma flat_map_agree {A B : Type} (f g : A -> list B) l :
  (forall x, In x l -> f x = g x) -> flat_map f l = flat_map g l.
Proof.
  induction l as [|x l IH]; intros H; simpl; [reflexivity|].
  rewrite (H x), IH; [reflexivity | | simpl; auto].
  intros y Hy. apply H. simpl. auto.
Qed.

(** The clauses, name by name. *)
Lemma mm_terms_by_name filters o :
  getFilters filters = Normal o ->
  MultiMatch.terms_of_selected_options o =
  flat_map
    (fun aggName => selected_terms aggName (values_for aggName (selections filters)))
    (Obj.keys o).
Proof.
  intros Hget. destruct (getFilters_inv _ _ Hget) as [_ Hown].
  unfold MultiMatch.terms_of_selected_options. cbv zeta.
  rewrite (fold_left_push
             (fun aggName =>
                negb (String.eqb aggName "section") ||
                negb (match Obj.own aggName o with
                      | Some values =>
                          String.eqb (MultiMatch.JSON_stringify values)
                            ("[" ++ quot ++ "others" ++ quot ++ "]")%string
                      | None => false
                      end))
             (fun aggName =>
                JObj [("terms",
                       JObj (if String.eqb (MultiMatch.getFieldnameFromAgg aggName)
                                  "subjects"
                             then [("subjects.keyword", values_of aggName o)]
                             else if String.eqb (MultiMatch.getFieldnameFromAgg aggName)
                                       "__proto__"
                                  then []
                                  else [(MultiMatch.getFieldnameFromAgg aggName,
                                         values_of aggName o)]))])
             (Obj.keys o) []).
  rewrite app_nil_l. apply flat_map_agree. intros aggName Hin.
  apply ObjFacts.own_In_keys in Hin. unfold values_of.
  rewrite Hown in *.
  destruct (values_for aggName (selections filters)) as [|v vs];
    [now elim Hin|].
  cbn [pushed]. unfold selected_terms, strings. cbv zeta.
  rewrite only_others_stringify.
  destruct (String.eqb aggName "section"), (only_others (v :: vs)); reflexivity.
Qed.

(** X17: behind the two global clauses, [post_filter.bool.must] holds, for
    the facet names with selected values in the order of their first
    selection, the clause [{terms: {field: values}}] of each name on its
    field and its selected values; only the name [section] has none when its
    values are the single value [others].  So the clauses are as many as the
    names, but for that one. *)
Theorem one_clause_per_selected_name st body o :
  MultiMatch.serialize this st = Normal body ->
  getFilters (filters st) = Normal o ->
  exists added,
    path ["post_filter"; "bool"; "must"] body =
    Some (JArr (MultiMatch.terms this ++ added)) /\
    (values_for "section" (selections (filters st)) = ["others"] ->
     S (List.length added) = List.length (Obj.keys o)) /\
    (values_for "section" (selections (filters st)) <> ["others"] ->
     List.length added = List.length (Obj.keys o)) /\
    path ["post_filter"; "bool"; "must"] body =
    Some (JArr
            (JObj [("terms", JObj [("portal_type",
                                    MultiMatch.allowed_content_types this)])] ::
             JObj [("terms", JObj [("review_state",
                                    MultiMatch.allowed_review_states this)])] ::
             added)) /\
    added =
    flat_map
      (fun aggName =>
         if String.eqb aggName "section" &&
            only_others (values_for aggName (selections (filters st)))
         then []
         else
           [JObj [("terms",
                   JObj (if String.eqb (MultiMatch.getFieldnameFromAgg aggName)
                              "subjects"
                         then [("subjects.keyword",
                                JArr (map JStr
                                        (values_for aggName
                                           (selections (filters st)))))]
                         else if String.eqb (MultiMatch.getFieldnameFromAgg aggName)
                                   "__proto__"
                              then []
                              else [(MultiMatch.getFieldnameFromAgg aggName,
                                     JArr (map JStr
                                             (values_for aggName
                                                (selections (filters st)))))]))]])
      (Obj.keys o) /\
    NoDup (Obj.keys o) /\
    (forall aggName,
       In aggName (Obj.keys o) <->
       values_for aggName (selections (filters st)) <> []).
Proof.
  intros Hser Hget. destruct (mm_serialize_inv this st body Hser) as (o' & Hget' & ->).
  assert (o' = o) by congruence. subst o'.
  destruct (getFilters_inv _ _ Hget) as [[Hnd _] Hown].
  exists (MultiMatch.terms_of_selected_options o).
  rewrite mm_path_post_filter, mm_post_filter_must. split; [reflexivity|].
  split; [|split; [|split; [reflexivity|split; [|split; [exact Hnd|]]]]].
  - rewrite mm_terms_length. intros Hothers.
    assert (Hsec : Obj.own "section" o = Some ["others"])
      by (now rewrite Hown, Hothers).
    apply (length_filter_but_one _ "section"); auto.
    + eapply ObjFacts.own_Some_In; eauto.
    + rewrite Hsec. reflexivity.
    + intros y _ Hy. apply String.eqb_neq in Hy. now rewrite Hy.
  - rewrite mm_terms_length. intros Hothers. f_equal.
    apply filter_all, Forall_forall. intros y Hy.
    destruct (String.eqb y "section") eqn:E; [|reflexivity].
    apply String.eqb_eq in E. subst y. rewrite Hown.
    destruct (values_for "section" (selections (filters st))) as [|v vs] eqn:Hv;
      [reflexivity|]. cbn [pushed].
    destruct (String.eqb (MultiMatch.JSON_stringify (v :: vs))
                ("[" ++ quot ++ "others" ++ quot ++ "]")%string) eqn:Hs;
      [|reflexivity].
    apply stringify_others in Hs. congruence.
  - exact (mm_terms_by_name _ _ Hget).
  - intros aggName. rewrite <- ObjFacts.own_In_keys, Hown.
    destruct (values_for aggName (selections (filters st))); cbn [pushed];
      split; congruence.
Qed.

Lemma mm_filter_shape section selected G :
  MultiMatch.filter this section selected G =
  Some (JObj [("bool",
               JObj (if negb (String.eqb G "section") &&
                        MultiMatch.section_is_others section
                     then Obj.set "must_not" (MultiMatch.excluded_sections this)
                            [("must",
                              JArr (MultiMatch.terms this ++
                                    List.filter
                                      (fun el => negb (existsb (String.eqb G)
                                                         (MultiMatch.terms_keys el)))
                                      selected))]
                     else [("must",
                            JArr (MultiMatch.terms this ++
                                  List.filter
                                    (fun el => negb (existsb (String.eqb G)
                                                       (MultiMatch.terms_keys el)))
                                    selected))]))]).
Proof.
  unfold MultiMatch.filter, MultiMatch.section_is_others. cbv zeta.
  cbn [MultiMatch.truthy].
  destruct (String.eqb G "section"); cbn [negb andb]; [reflexivity|].
  destruct section as [[n v c]|]; [|reflexivity].
  destruct (String.eqb v "others"); reflexivity.
Qed.

(** The entry of a facet whose aggregation name no other facet shares. *)
Lemma mm_aggregation_entry section selected G :
  In G (Obj.keys (MultiMatch.facet_fields this) ++ ["section"]) ->
  (forall k, In k (Obj.keys (MultiMatch.facet_fields this) ++ ["section"]) ->
             MultiMatch.aggregation_name k = MultiMatch.aggregation_name G -> k = G) ->
  Obj.own (MultiMatch.aggregation_name G)
    (MultiMatch.aggregations this section selected) =
  Some (MultiMatch.aggregation this section selected G).
Proof.
  intros Hin Huniq. unfold MultiMatch.aggregations. cbv zeta.
  exact (own_fold_set (fun _ => true) MultiMatch.aggregation_name
           (MultiMatch.aggregation this section selected) G
           (Obj.keys (MultiMatch.facet_fields this) ++ ["section"]) [] eq_refl
           (fun k Hk _ E => f_equal _ (Huniq k Hk E)) (or_introl Hin)).
Qed.

Lemma mm_aggregation_filter section selected G ks :
  path ("filter" :: ks) (MultiMatch.aggregation this section selected G) =
  match MultiMatch.filter this section selected G with
  | Some f => path ks f
  | None => None
  end.
Proof.
  unfold MultiMatch.aggregation. cbv zeta. rewrite mm_filter_shape.
  cbn [MultiMatch.truthy path]. unfold field at 1.
  now rewrite ObjFacts.own_set_same.
Qed.

(** X18: the aggregation of a facet other than [Subject] and [subjects]
    is filtered by the must clauses of the post-filter without the selected
    clauses on the facet's own name, and, unless it is the facet [section],
    by the [must_not] of the post-filter. *)
Theorem facet_aggregation_excludes_itself st body G :
  MultiMatch.serialize this st = Normal body ->
  In G (Obj.keys (MultiMatch.facet_fields this) ++ ["section"]) ->
  G <> "Subject" -> G <> "subjects" ->
  exists added,
    path ["post_filter"; "bool"; "must"] body =
    Some (JArr (MultiMatch.terms this ++ added)) /\
    path ["aggs"; (G ++ "_agg")%string; "filter"; "bool"; "must"] body =
    Some (JArr (MultiMatch.terms this ++
                List.filter
                  (fun el => negb (existsb (String.eqb G) (MultiMatch.terms_keys el)))
                  added)) /\
    path ["aggs"; (G ++ "_agg")%string; "filter"; "bool"; "must_not"] body =
    if String.eqb G "section" then None
    else path ["post_filter"; "bool"; "must_not"] body.
Proof.
  intros Hser Hin HS Hs. destruct (mm_serialize_inv this st body Hser) as (o & _ & ->).
  exists (MultiMatch.terms_of_selected_options o).
  assert (Hname : MultiMatch.aggregation_name G = (G ++ "_agg")%string).
  { unfold MultiMatch.aggregation_name. cbv zeta.
    apply String.eqb_neq in HS. now rewrite HS. }
  rewrite !mm_path_post_filter, mm_post_filter_must, mm_post_filter_must_not.
  rewrite !mm_path_aggs, <- Hname.
  rewrite mm_aggregation_entry;
    [| exact Hin | intros k _; now apply aggregation_name_injective].
  rewrite !mm_aggregation_filter, mm_filter_shape.
  split; [reflexivity|].
  destruct (String.eqb G "section"); cbn [negb andb];
    [split; reflexivity|].
  destruct (MultiMatch.section_is_others (MultiMatch.section_of (filters st)));
    unfold path, field; cbn [Obj.own String.eqb Ascii.eqb Bool.eqb];
    rewrite ?ObjFacts.own_set_other by discriminate;
    rewrite ?ObjFacts.own_set_same; split; reflexivity.
Qed.

(** X19: the aggregation of the facet [Subject] is not kept clear of its
    own selection: the selected values of [subjects_agg] are a clause on
    [subjects.keyword], which the filter around [subjects_agg] holds. *)
Theorem subject_aggregation_keeps_own_clause st body :
  MultiMatch.serialize this st = Normal body ->
  In "Subject" (Obj.keys (MultiMatch.facet_fields this)) ->
  ~ In "subjects" (Obj.keys (MultiMatch.facet_fields this)) ->
  values_for "subjects_agg" (selections (filters st)) <> [] ->
  exists kept,
    path ["aggs"; "subjects_agg"; "filter"; "bool"; "must"] body =
    Some (JArr (MultiMatch.terms this ++ kept)) /\
    In (JObj [("terms",
               JObj [("subjects.keyword",
                      strings (values_for "subjects_agg"
                                 (selections (filters st))))])])
       kept.
Proof.
  intros Hser Hin Hnot Hsel.
  destruct (mm_serialize_inv this st body Hser) as (o & Hget & ->).
  destruct (getFilters_inv _ _ Hget) as [_ Hown].
  assert (Ho : Obj.own "subjects_agg" o =
               Some (values_for "subjects_agg" (selections (filters st)))).
  { rewrite Hown. destruct (values_for "subjects_agg" _); [contradiction | reflexivity]. }
  change "subjects_agg" with (MultiMatch.aggregation_name "Subject") at 1.
  rewrite mm_path_aggs.
  rewrite mm_aggregation_entry.
  - rewrite mm_aggregation_filter, mm_filter_shape.
    eexists. split.
    + destruct (negb (String.eqb "Subject" "section") &&
                MultiMatch.section_is_others (MultiMatch.section_of (filters st)));
        unfold path, field; cbn [Obj.own String.eqb Ascii.eqb Bool.eqb];
        rewrite ?ObjFacts.own_set_other by discriminate; reflexivity.
    + apply filter_In. split; [|reflexivity].
      unfold MultiMatch.terms_of_selected_options. cbv zeta.
      rewrite (fold_left_push
                 (fun aggName =>
                    negb (String.eqb aggName "section") ||
                    negb (match Obj.own aggName o with
                          | Some values =>
                              String.eqb (MultiMatch.JSON_stringify values)
                                ("[" ++ quot ++ "others" ++ quot ++ "]")%string
                          | None => false
                          end))
                 (fun aggName =>
                    JObj [("terms",
                           JObj (if String.eqb (MultiMatch.getFieldnameFromAgg aggName)
                                      "subjects"
                                 then [("subjects.keyword", values_of aggName o)]
                                 else if String.eqb
                                           (MultiMatch.getFieldnameFromAgg aggName)
                                           "__proto__"
                                      then []
                                      else [(MultiMatch.getFieldnameFromAgg aggName,
                                             values_of aggName o)]))])
                 (Obj.keys o) []).
      rewrite app_nil_l. apply in_flat_map. exists "subjects_agg". split.
      * eapply ObjFacts.own_Some_In; eauto.
      * cbn [String.eqb Ascii.eqb Bool.eqb negb orb]. left.
        unfold values_of. rewrite Ho. reflexivity.
  - apply in_or_app. now left.
  - intros k Hk E. unfold MultiMatch.aggregation_name in E. cbv zeta in E.
    destruct (String.eqb k "Subject") eqn:Ek; [now apply String.eqb_eq|].
    cbn [String.eqb Ascii.eqb Bool.eqb] in E.
    apply (append_inj_right "_agg" k "subjects") in E. subst k.
    apply in_app_or in Hk as [Hk|[Hk|[]]]; [contradiction | discriminate].
Qed.

End MultiMatchClauses.

Lemma one_clause_per_selected_name_witness :
  MultiMatch.serialize MultiMatch.sample
    (state_of "" 1 10 [Chain "section" "others" None; Chain "type_agg" "News" None]) =
  Normal (MultiMatch.assemble MultiMatch.sample
            (state_of "" 1 10
               [Chain "section" "others" None; Chain "type_agg" "News" None])
            (MultiMatch.terms_of_selected_options
               [("section", ["others"]); ("type_agg", ["News"])])) /\
  getFilters [Chain "section" "others" None; Chain "type_agg" "News" None] =
  Normal [("section", ["others"]); ("type_agg", ["News"])] /\
  exists added,
    path ["post_filter"; "bool"; "must"]
      (MultiMatch.assemble MultiMatch.sample
         (state_of "" 1 10
            [Chain "section" "others" None; Chain "type_agg" "News" None])
         (MultiMatch.terms_of_selected_options
            [("section", ["others"]); ("type_agg", ["News"])])) =
    Some (JArr (MultiMatch.terms MultiMatch.sample ++ added)) /\
    S (List.length added) = 2%nat /\
    added = [JObj [("terms", JObj [("type", JArr [JStr "News"])])]].
Proof.
  split; [reflexivity|]. split; [reflexivity|].
  destruct (one_clause_per_selected_name MultiMatch.sample
              (state_of "" 1 10
                 [Chain "section" "others" None; Chain "type_agg" "News" None])
              _ _ eq_refl eq_refl)
    as (added & Hmust & Hothers & _ & _ & Hadded & _).
  exists added. split; [exact Hmust|]. split; [apply Hothers; reflexivity|].
  exact Hadded.
Defined.

Lemma facet_aggregation_excludes_itself_witness :
  MultiMatch.serialize MultiMatch.sample
    (state_of "" 1 10 [Chain "type_agg" "News" None]) =
  Normal (MultiMatch.assemble MultiMatch.sample
            (state_of "" 1 10 [Chain "type_agg" "News" None])
            (MultiMatch.terms_of_selected_options [("type_agg", ["News"])])) /\
  In "type" (Obj.keys (MultiMatch.facet_fields MultiMatch.sample) ++ ["section"]) /\
  "type" <> "Subject" /\ "type" <> "subjects" /\
  exists added,
    path ["post_filter"; "bool"; "must"]
      (MultiMatch.assemble MultiMatch.sample
         (state_of "" 1 10 [Chain "type_agg" "News" None])
         (MultiMatch.terms_of_selected_options [("type_agg", ["News"])])) =
    Some (JArr (MultiMatch.terms MultiMatch.sample ++ added)) /\
    path ["aggs"; "type_agg"; "filter"; "bool"; "must"]
      (MultiMatch.assemble MultiMatch.sample
         (state_of "" 1 10 [Chain "type_agg" "News" None])
         (MultiMatch.terms_of_selected_options [("type_agg", ["News"])])) =
    Some (JArr (MultiMatch.terms MultiMatch.sample ++
                List.filter
                  (fun el => negb (existsb (String.eqb "type")
                                     (MultiMatch.terms_keys el)))
                  added)).
Proof.
  assert (Hin : In "type"
                  (Obj.keys (MultiMatch.facet_fields MultiMatch.sample) ++ ["section"]))
    by (simpl; auto).
  assert (H1 : "type" <> "Subject") by discriminate.
  assert (H2 : "type" <> "subjects") by discriminate.
  split; [reflexivity|]. split; [exact Hin|]. split; [exact H1|]. split; [exact H2|].
  destruct (facet_aggregation_excludes_itself MultiMatch.sample
              (state_of "" 1 10 [Chain "type_agg" "News" None]) _ "type"
              eq_refl Hin H1 H2) as (added & Hmust & Hagg & _).
  exists added. split; [exact Hmust | exact Hagg].
Defined.

Lemma subject_aggregation_keeps_own_clause_witness :
  MultiMatch.serialize MultiMatch.sample
    (state_of "" 1 10 [Chain "subjects_agg" "plone" None]) =
  Normal (MultiMatch.assemble MultiMatch.sample
            (state_of "" 1 10 [Chain "subjects_agg" "plone" None])
            (MultiMatch.terms_of_selected_options [("subjects_agg", ["plone"])])) /\
  In "Subject" (Obj.keys (MultiMatch.facet_fields MultiMatch.sample)) /\
  ~ In "subjects" (Obj.keys (MultiMatch.facet_fields MultiMatch.sample)) /\
  values_for "subjects_agg" (selections [Chain "subjects_agg" "plone" None]) <> [] /\
  exists kept,
    path ["aggs"; "subjects_agg"; "filter"; "bool"; "must"]
      (MultiMatch.assemble MultiMatch.sample
         (state_of "" 1 10 [Chain "subjects_agg" "plone" None])
         (MultiMatch.terms_of_selected_options [("subjects_agg", ["plone"])])) =
    Some (JArr (MultiMatch.terms MultiMatch.sample ++ kept)) /\
    In (JObj [("terms", JObj [("subjects.keyword", strings ["plone"])])]) kept.
Proof.
  assert (Hin : In "Subject" (Obj.keys (MultiMatch.facet_fields MultiMatch.sample)))
    by (simpl; auto).
  assert (Hnot : ~ In "subjects" (Obj.keys (MultiMatch.facet_fields MultiMatch.sample))).
  { simpl. intros [H|[H|[]]]; discriminate H. }
  assert (Hsel : values_for "subjects_agg"
                   (selections [Chain "subjects_agg" "plone" None]) <> [])
    by discriminate.
  split; [reflexivity|]. split; [exact Hin|]. split; [exact Hnot|].
  split; [exact Hsel|].
  exact (subject_aggregation_keeps_own_clause MultiMatch.sample
           (state_of "" 1 10 [Chain "subjects_agg" "plone" None]) _
           eq_refl Hin Hnot Hsel).
Defined.

(** ** When the serializers throw *)

(** X20: each of the two serializers throws exactly when a facet name of
    the filters, at any depth, is a name every object inherits; on all other
    search states it returns a request. *)
Theorem serialize_throws_iff listFilterFields nestedFilterFields this this' st :
  (serialize listFilterFields nestedFilterFields this st = Throw <->
   Exists (fun p => Obj.inherited (fst p) = true) (selections (filters st))) /\
  (MultiMatch.serialize this' st = Throw <->
   Exists (fun p => Obj.inherited (fst p) = true) (selections (filters st))) /\
  (~ Exists (fun p => Obj.inherited (fst p) = true) (selections (filters st)) ->
   exists body body',
     serialize listFilterFields nestedFilterFields this st = Normal body /\
     MultiMatch.serialize this' st = Normal body').
Proof.
  assert (Hget : getFilters (filters st) = Throw <->
                 Exists (fun p => Obj.inherited (fst p) = true)
                   (selections (filters st))).
  { split.
    - intros Hthrow.
      destruct (existsb (fun p => Obj.inherited (fst p)) (selections (filters st)))
        eqn:E.
      + apply existsb_exists in E as (p & Hp & Hinh). apply Exists_exists. now exists p.
      + assert (Hall : Forall (fun p => Obj.inherited (fst p) = false)
                         (selections (filters st))).
        { apply Forall_forall. intros p Hp.
          destruct (Obj.inherited (fst p)) eqn:E'; [|reflexivity].
          assert (existsb (fun p => Obj.inherited (fst p))
                    (selections (filters st)) = true)
            by (apply existsb_exists; now exists p).
          congruence. }
        destruct (getFilters_normal _ Hall) as (o & Ho & _). congruence.
    - intros Hex. apply forEach_throws; [apply flat_empty | exact Hex]. }
  assert (Hempty : filters st = [] ->
                   ~ Exists (fun p => Obj.inherited (fst p) = true)
                       (selections (filters st))).
  { intros -> H. inversion H. }
  unfold serialize, MultiMatch.serialize.
  destruct (filters st) as [|c fs] eqn:Hfs; cbn [has_length bind].
  - specialize (Hempty eq_refl).
    repeat split; try discriminate; try (intros H; now apply Hempty in H).
    intros _. eauto.
  - destruct (getFilters (c :: fs)) as [o|]; cbn [bind].
    + repeat split; try discriminate.
      * intros H. apply Hget in H. discriminate.
      * intros H. apply Hget in H. discriminate.
      * intros _. eauto.
    + repeat split; auto; try (intros _; now apply Hget).
      intros H. exfalso. apply H. now apply Hget.
Qed.

Lemma serialize_throws_iff_witness :
  ~ Exists (fun p => Obj.inherited (fst p) = true)
      (selections [Chain "type_agg" "News" None]) /\
  exists body body',
    serialize [] all_nested sample_serializer
      (state_of "" 1 10 [Chain "type_agg" "News" None]) = Normal body /\
    MultiMatch.serialize MultiMatch.sample
      (state_of "" 1 10 [Chain "type_agg" "News" None]) = Normal body'.
Proof.
  assert (H : ~ Exists (fun p => Obj.inherited (fst p) = true)
                  (selections [Chain "type_agg" "News" None])).
  { intros H. inversion H as [? ? Hh|? ? Ht]; [discriminate Hh | inversion Ht]. }
  split; [exact H|].
  destruct (serialize_throws_iff [] all_nested sample_serializer MultiMatch.sample
              (state_of "" 1 10 [Chain "type_agg" "News" None])) as (_ & _ & Hret).
  exact (Hret H).
Defined.

